(** * S3-FIFO cache over three FIFO key-value stores

    A shallow embedding of [S3FIFORocksDB] (s3fifo_rocksdb.hpp): the
    three queues, the item counters, the access bookkeeping, and the
    public operations [put], [get] and [getStats], together with the
    private helpers they call.  Backend failures and [rand()] are
    supplied by an environment, so that every path of the code can be
    evaluated. *)

From Stdlib Require Import ZArith List String Bool Lia SpecFloat.
From stdpp Require Import base gmap strings.

Local Open Scope string_scope.
Local Open Scope Z_scope.

(** ** Machine integers *)

(** [uint64_t] and [size_t] values are integers in [0, 2^64); arithmetic
    on them wraps around. *)
Definition wrap64 (x : Z) : Z := x mod 2 ^ 64.

(** [static_cast<uint32_t>(int)]. *)
Definition to_uint32 (x : Z) : Z := x mod 2 ^ 32.

(** ** IEEE binary64 ([double]) *)

Module Double.
Definition prec : Z := 53.
Definition emax : Z := 1024.

Definition mul := SFmul prec emax.
Definition sub := SFsub prec emax.
Definition div := SFdiv prec emax.
Definition ltb := SFltb.

(** Conversion of an integer to [double], rounding to nearest even. *)
Definition of_Z (n : Z) : spec_float := binary_normalize prec emax n 0 false.

(** The literals that occur in the source. *)
Definition zero : spec_float := S754_zero false.
Definition one : spec_float := S754_finite false 4503599627370496 (-52).
Definition lit_0_01 : spec_float := S754_finite false 5764607523034235 (-59).
Definition lit_0_1 : spec_float := S754_finite false 7205759403792794 (-56).

(** [static_cast<size_t>(double)]: truncation toward zero.  The
    conversion is undefined when the truncated value is not a
    [size_t]; the model then gives [None]. *)
Definition to_size (f : spec_float) : option Z :=
  match f with
  | S754_zero _ => Some 0
  | S754_finite s m e =>
      let t := Z.shiftl (Z.pos m) e in
      if s then (if t =? 0 then Some 0 else None)
      else if t <? 2 ^ 64 then Some t else None
  | S754_infinity _ | S754_nan => None
  end.
End Double.

(** ** The queue backend *)

(** Modelled from the spec: the ordered key-value store behind each
    queue (RocksDB, which the repository only links against).  A store
    is the list of its entries, oldest first; [Put] overwrites in place
    or appends, [Get] is a point lookup, [Delete] removes the key, and
    the first entry of an iterator is the FIFO-oldest one. *)
Module Backend.
Definition DB : Type := list (string * string).

Fixpoint Put (key value : string) (db : DB) : DB :=
  match db with
  | [] => [(key, value)]
  | (k, v) :: rest =>
      if String.eqb k key then (k, value) :: rest
      else (k, v) :: Put key value rest
  end.

Fixpoint Get (key : string) (db : DB) : option string :=
  match db with
  | [] => None
  | (k, v) :: rest => if String.eqb k key then Some v else Get key rest
  end.

Fixpoint Delete (key : string) (db : DB) : DB :=
  match db with
  | [] => []
  | (k, v) :: rest =>
      if String.eqb k key then Delete key rest
      else (k, v) :: Delete key rest
  end.

(** [it->SeekToFirst()]: the entry a fresh iterator points at, if any. *)
Definition SeekToFirst (db : DB) : option (string * string) :=
  match db with
  | [] => None
  | kv :: _ => Some kv
  end.

Definition contains (key : string) (db : DB) : bool :=
  match Get key db with Some _ => true | None => false end.

Definition items (db : DB) : Z := Z.of_nat (length db).
End Backend.

(** [rocksdb::Status], as far as the code distinguishes it. *)
Inductive Status := OK | NotFound | IOError.

Definition ok (s : Status) : bool :=
  match s with OK => true | _ => false end.

(** ** The cache object *)

Inductive Level := debug | info | error.

(** One constructor per format string the modelled functions log. *)
Inductive Message :=
  | GetRequestFor (key : string)
  | SmallQueueHit (key : string)
  | MainQueueHit (key : string)
  | CacheMiss (key : string)
  | PromotedFromMainToSmall (key : string)
  | GhostHitPromotingDirectly (key : string)
  | SlowPromotion (key : string) (count : Z)
  | NoPromotionFor (key : string) (count : Z)
  | QuickDemotionFor (key : string) (age count : Z)
  | PromotedToSmallQueue (key : string)
  | FailedToPromote (key : string) (status : Status)
  | CacheMissFor (key : string)
  | NewItemInsertedIntoSmall (key : string)
  | SmallQueueFullEvicted (key : string)
  | MovedToMainQueue (key : string) (count : Z)
  | MovedToGhostQueue (key : string).

Record AccessInfo := mkAccessInfo {
  count : Z;        (* int *)
  last_access : Z   (* uint64_t *)
}.

(** The [const] members fixed by the constructor. *)
Record Config := mkConfig {
  total_size_ : Z;
  small_ratio_ : spec_float;
  ghost_ratio_ : spec_float;
  small_size_ : Z;
  main_size_ : Z;
  ghost_size_ : Z
}.

(** The object state.  [logger_] holds the entries logged by the
    operations since construction, oldest first; [backend_calls] and
    [rand_calls] count the backend operations and the [rand()] calls
    issued so far (they index the environment below). *)
Record S3FIFORocksDB := mkCache {
  config : Config;
  small_db_ : Backend.DB;
  main_db_ : Backend.DB;
  ghost_db_ : Backend.DB;
  small_queue_items_ : Z;
  main_queue_items_ : Z;
  ghost_queue_items_ : Z;
  access_count_ : Z;
  access_tracker_ : gmap string AccessInfo;
  access_counts_ : gmap string Z;
  logger_ : list (Level * Message);
  backend_calls : nat;
  rand_calls : nat
}.

(** What the object cannot see: which backend operations fail, and what
    [rand()] returns.  The [n]-th [Put]/[Get]/[Delete] issued on any of
    the three stores fails when [io_fault n] holds. *)
Record Env := mkEnv {
  io_fault : nat -> bool;
  rand_value : nat -> Z;
  RAND_MAX : Z
}.

(** The two class constants.  The functions below compare with the
    literal [0.01], as the source does, not with [PROMOTION_THRESHOLD]. *)
Definition PROMOTION_THRESHOLD : spec_float := Double.lit_0_01.
Definition MIN_ACCESS_COUNT : Z := 2.

Inductive Queue := Small | Main | Ghost.

(** Field updates. *)
Section Update.
Variable w : S3FIFORocksDB.

Definition with_small_db (x : Backend.DB) : S3FIFORocksDB :=
  mkCache (config w) x (main_db_ w) (ghost_db_ w)
    (small_queue_items_ w) (main_queue_items_ w) (ghost_queue_items_ w)
    (access_count_ w) (access_tracker_ w) (access_counts_ w)
    (logger_ w) (backend_calls w) (rand_calls w).

Definition with_main_db (x : Backend.DB) : S3FIFORocksDB :=
  mkCache (config w) (small_db_ w) x (ghost_db_ w)
    (small_queue_items_ w) (main_queue_items_ w) (ghost_queue_items_ w)
    (access_count_ w) (access_tracker_ w) (access_counts_ w)
    (logger_ w) (backend_calls w) (rand_calls w).

Definition with_ghost_db (x : Backend.DB) : S3FIFORocksDB :=
  mkCache (config w) (small_db_ w) (main_db_ w) x
    (small_queue_items_ w) (main_queue_items_ w) (ghost_queue_items_ w)
    (access_count_ w) (access_tracker_ w) (access_counts_ w)
    (logger_ w) (backend_calls w) (rand_calls w).

Definition with_small_queue_items (x : Z) : S3FIFORocksDB :=
  mkCache (config w) (small_db_ w) (main_db_ w) (ghost_db_ w)
    x (main_queue_items_ w) (ghost_queue_items_ w)
    (access_count_ w) (access_tracker_ w) (access_counts_ w)
    (logger_ w) (backend_calls w) (rand_calls w).

Definition with_main_queue_items (x : Z) : S3FIFORocksDB :=
  mkCache (config w) (small_db_ w) (main_db_ w) (ghost_db_ w)
    (small_queue_items_ w) x (ghost_queue_items_ w)
    (access_count_ w) (access_tracker_ w) (access_counts_ w)
    (logger_ w) (backend_calls w) (rand_calls w).

Definition with_ghost_queue_items (x : Z) : S3FIFORocksDB :=
  mkCache (config w) (small_db_ w) (main_db_ w) (ghost_db_ w)
    (small_queue_items_ w) (main_queue_items_ w) x
    (access_count_ w) (access_tracker_ w) (access_counts_ w)
    (logger_ w) (backend_calls w) (rand_calls w).

Definition with_access_count (x : Z) : S3FIFORocksDB :=
  mkCache (config w) (small_db_ w) (main_db_ w) (ghost_db_ w)
    (small_queue_items_ w) (main_queue_items_ w) (ghost_queue_items_ w)
    x (access_tracker_ w) (access_counts_ w)
    (logger_ w) (backend_calls w) (rand_calls w).

Definition with_access_counts (x : gmap string Z) : S3FIFORocksDB :=
  mkCache (config w) (small_db_ w) (main_db_ w) (ghost_db_ w)
    (small_queue_items_ w) (main_queue_items_ w) (ghost_queue_items_ w)
    (access_count_ w) (access_tracker_ w) x
    (logger_ w) (backend_calls w) (rand_calls w).

Definition with_logger (x : list (Level * Message)) : S3FIFORocksDB :=
  mkCache (config w) (small_db_ w) (main_db_ w) (ghost_db_ w)
    (small_queue_items_ w) (main_queue_items_ w) (ghost_queue_items_ w)
    (access_count_ w) (access_tracker_ w) (access_counts_ w)
    x (backend_calls w) (rand_calls w).

Definition with_backend_calls (x : nat) : S3FIFORocksDB :=
  mkCache (config w) (small_db_ w) (main_db_ w) (ghost_db_ w)
    (small_queue_items_ w) (main_queue_items_ w) (ghost_queue_items_ w)
    (access_count_ w) (access_tracker_ w) (access_counts_ w)
    (logger_ w) x (rand_calls w).

Definition with_rand_calls (x : nat) : S3FIFORocksDB :=
  mkCache (config w) (small_db_ w) (main_db_ w) (ghost_db_ w)
    (small_queue_items_ w) (main_queue_items_ w) (ghost_queue_items_ w)
    (access_count_ w) (access_tracker_ w) (access_counts_ w)
    (logger_ w) (backend_calls w) x.

Definition db_of (q : Queue) : Backend.DB :=
  match q with
  | Small => small_db_ w
  | Main => main_db_ w
  | Ghost => ghost_db_ w
  end.

Definition with_db (q : Queue) (x : Backend.DB) : S3FIFORocksDB :=
  match q with
  | Small => with_small_db x
  | Main => with_main_db x
  | Ghost => with_ghost_db x
  end.
End Update.

(** ** Member functions as state transformers *)

(** A member function takes the object state and returns its result with
    the new state. *)
Definition M (A : Type) : Type := S3FIFORocksDB -> A * S3FIFORocksDB.

Definition ret {A} (a : A) : M A := fun w => (a, w).

Definition bind {A B} (m : M A) (f : A -> M B) : M B :=
  fun w => let (a, w') := m w in f a w'.

Declare Scope member_scope.
Delimit Scope member_scope with member.
Notation "'let*' x := m 'in' k" := (bind m (fun x => k))
  (at level 10, x name, m at level 100, k at level 200) : member_scope.
Notation "m >> k" := (bind m (fun _ => k))
  (at level 199, right associativity) : member_scope.
Local Open Scope member_scope.

Definition gets {A} (f : S3FIFORocksDB -> A) : M A := fun w => (f w, w).

Definition modify (f : S3FIFORocksDB -> S3FIFORocksDB) : M unit :=
  fun w => (tt, f w).

Definition when (b : bool) (m : M unit) : M unit :=
  if b then m else ret tt.

Definition log (l : Level) (m : Message) : M unit :=
  modify (fun w => with_logger w (logger_ w ++ [(l, m)])).

Section Members.
Variable env : Env.

(** *** Backend calls *)

(** Every call on a store first learns from the environment whether
    it fails. *)
Definition backend_call : M bool :=
  fun w => (io_fault env (backend_calls w),
            with_backend_calls w (S (backend_calls w))).

(** [db->Put(WriteOptions(), key, value)]; a failed write changes
    nothing. *)
Definition Put (q : Queue) (key value : string) : M Status :=
  let* failed := backend_call in
  if failed then ret IOError
  else modify (fun w => with_db w q (Backend.Put key value (db_of w q)))
       >> ret OK.

(** [db->Get(ReadOptions(), key, value)]: the status, and what is
    written through [value] (with [nullptr] the code only looks at
    the status). *)
Definition Get (q : Queue) (key : string) : M (Status * option string) :=
  let* failed := backend_call in
  if failed then ret (IOError, None)
  else let* db := gets (fun w => db_of w q) in
       match Backend.Get key db with
       | Some v => ret (OK, Some v)
       | None => ret (NotFound, None)
       end.

(** [db->Delete(WriteOptions(), key)]. *)
Definition Delete (q : Queue) (key : string) : M Status :=
  let* failed := backend_call in
  if failed then ret IOError
  else modify (fun w => with_db w q (Backend.Delete key (db_of w q)))
       >> ret OK.

(** [db->NewIterator(ReadOptions())] followed by [SeekToFirst()] and
    the [Valid()] test: the first entry, or [None] at the end. *)
Definition NewIterator_SeekToFirst (q : Queue)
  : M (option (string * string)) :=
  gets (fun w => Backend.SeekToFirst (db_of w q)).

(** [rand()]. *)
Definition rand : M Z :=
  fun w => (rand_value env (rand_calls w),
            with_rand_calls w (S (rand_calls w))).

(** [access_counts_[key]]: [operator[]] enters a zero for a key that
    is not in the map yet. *)
Definition access_counts_at (key : string) : M Z :=
  fun w =>
    match access_counts_ w !! key with
    | Some c => (c, w)
    | None => (0, with_access_counts w (<[key := 0]> (access_counts_ w)))
    end.

Definition set_access_counts_at (key : string) (c : Z) : M unit :=
  modify (fun w => with_access_counts w (<[key := c]> (access_counts_ w))).

Definition small_queue_items_incr : M unit :=
  modify (fun w => with_small_queue_items w (wrap64 (small_queue_items_ w + 1))).
Definition small_queue_items_decr : M unit :=
  modify (fun w => with_small_queue_items w (wrap64 (small_queue_items_ w - 1))).
Definition main_queue_items_incr : M unit :=
  modify (fun w => with_main_queue_items w (wrap64 (main_queue_items_ w + 1))).
Definition main_queue_items_decr : M unit :=
  modify (fun w => with_main_queue_items w (wrap64 (main_queue_items_ w - 1))).
Definition ghost_queue_items_incr : M unit :=
  modify (fun w => with_ghost_queue_items w (wrap64 (ghost_queue_items_ w + 1))).

(** [(rand() / static_cast<double>(RAND_MAX)) < 0.01]. *)
Definition rand_below_threshold : M bool :=
  let* r := rand in
  ret (Double.ltb (Double.div (Double.of_Z r) (Double.of_Z (RAND_MAX env)))
                  Double.lit_0_01).

(** *** Private helpers *)

(** Main queue eviction: the oldest entry of the main queue leaves
    it, and is remembered in the ghost queue unless the small queue
    holds the key. *)
Definition evictFromMain : M unit :=
  let* it := NewIterator_SeekToFirst Main in
  match it with
  | Some (key, _) =>
      let* r := Get Small key in
      when (negb (ok (fst r)))
        (Put Ghost key "" >> ghost_queue_items_incr) >>
      Delete Main key >>
      main_queue_items_decr
  | None => ret tt
  end.

(** Promotion decision for a key found in the main queue. *)
Definition shouldPromoteToSmall (key : string) : M bool :=
  let* r := Get Ghost key in
  if ok (fst r) then
    log info (GhostHitPromotingDirectly key) >> ret true
  else
    let* c := access_counts_at key in
    let* drawn := (if 1 <? c then rand_below_threshold else ret false) in
    if drawn then
      log info (SlowPromotion key c) >> ret true
    else
      log debug (NoPromotionFor key c) >> ret false.

(** Quick demotion of a key found in the small queue. *)
Definition quickDemotion (key : string) : M unit :=
  let* tracked := gets (fun w => access_tracker_ w !! key) in
  match tracked with
  | Some info_ =>
      let* current_time := gets (fun w => wrap64 (access_count_ w + 1)) in
      modify (fun w => with_access_count w current_time) >>
      let age := wrap64 (current_time - last_access info_) in
      if (10000 <? age) || (to_uint32 (count info_) <? MIN_ACCESS_COUNT) then
        log info (QuickDemotionFor key age (count info_)) >>
        let* r := Get Small key in
        match r with
        | (OK, Some value) =>
            Put Main key value >>
            Delete Small key >>
            small_queue_items_decr >>
            main_queue_items_incr
        | _ => ret tt
        end
      else ret tt
  | None => ret tt
  end.

(** Promotion of an item from the main queue to the small queue. *)
Definition promoteToSmall (key value : string) : M unit :=
  let* status := Put Small key value in
  if ok status then
    Delete Main key >>
    small_queue_items_incr >>
    main_queue_items_decr >>
    log info (PromotedToSmallQueue key)
  else
    log error (FailedToPromote key status).

(** [evictOldestFromSmall(&key, &value)]: the evicted entry; both
    strings stay empty when the small queue has no entry. *)
Definition evictOldestFromSmall : M (string * string) :=
  let* it := NewIterator_SeekToFirst Small in
  match it with
  | Some (key, value) =>
      Delete Small key >>
      small_queue_items_decr >>
      ret (key, value)
  | None => ret ("", "")
  end.

Definition handleCacheMiss (key value : string) : M unit :=
  log debug (CacheMissFor key) >>
  let* room := gets (fun w => small_queue_items_ w <? small_size_ (config w)) in
  if room then
    Put Small key value >>
    small_queue_items_incr >>
    set_access_counts_at key 0 >>
    log info (NewItemInsertedIntoSmall key)
  else
    let* evicted := evictOldestFromSmall in
    let evicted_key := fst evicted in
    let evicted_value := snd evicted in
    log info (SmallQueueFullEvicted evicted_key) >>
    let* c := access_counts_at evicted_key in
    if 0 <? c then
      Put Main evicted_key evicted_value >>
      main_queue_items_incr >>
      log info (MovedToMainQueue evicted_key c)
    else
      Put Ghost evicted_key "" >>
      ghost_queue_items_incr >>
      log info (MovedToGhostQueue evicted_key).

(** [handleAccess(key, value)] with [*value = value0] on entry: the
    status and the final content of [*value].  The increment
    [access_counts_[key]++] of an [int] is modelled below [INT_MAX],
    where it is exact; its overflow is undefined in the source. *)
Definition handleAccess (key value0 : string) : M (Status * string) :=
  let* r := Get Small key in
  match r with
  | (OK, Some value) =>
      let* c := access_counts_at key in
      set_access_counts_at key (c + 1) >>
      ret (OK, value)
  | _ =>
      let* r := Get Main key in
      match r with
      | (OK, Some value) =>
          let* c := access_counts_at key in
          set_access_counts_at key (c + 1) >>
          let* g := Get Ghost key in
          (if ok (fst g) then
             promoteToSmall key value >>
             Delete Ghost key >> ret tt
           else
             let* c := access_counts_at key in
             let* drawn := (if 1 <? c then rand_below_threshold else ret false) in
             when drawn (promoteToSmall key value)) >>
          ret (OK, value)
      | _ =>
          handleCacheMiss key value0 >>
          ret (NotFound, value0)
      end
  end.

(** *** Public operations *)

Definition getAverageValueSize : Z := 4096.

Definition put (key value : string) : M Status :=
  let* status := Put Main key value in
  if negb (ok status) then ret status
  else
    main_queue_items_incr >>
    let* r := Get Small key in
    let* status := (if ok (fst r) then Put Small key value else ret status) in
    let* over := gets (fun w =>
      main_size_ (config w) <? wrap64 (main_queue_items_ w * getAverageValueSize)) in
    when over evictFromMain >>
    ret status.

(** [get(key, value)]: the status, and what was written to [*value]. *)
Definition get (key : string) : M (Status * option string) :=
  log debug (GetRequestFor key) >>
  let* r := Get Small key in
  if ok (fst r) then
    log debug (SmallQueueHit key) >>
    quickDemotion key >>
    ret (OK, snd r)
  else
    let* r := Get Main key in
    if ok (fst r) then
      log debug (MainQueueHit key) >>
      let* promote := shouldPromoteToSmall key in
      when promote
        (Put Small key (default "" (snd r)) >>
         Delete Main key >>
         small_queue_items_incr >>
         main_queue_items_decr >>
         log info (PromotedFromMainToSmall key)) >>
      ret (OK, snd r)
    else
      log debug (CacheMiss key) >>
      ret (NotFound, None).
End Members.

(** ** Statistics *)

Record Statistics := mkStatistics {
  small_items : Z;
  main_items : Z;
  ghost_items : Z;
  small_size : Z;
  main_size : Z;
  ghost_size : Z
}.


(** [getStats()]; [live_sst_files_size] is what each store answers to
    [GetAggregatedIntProperty("rocksdb.live-sst-files-size", _)]. *)
Definition getStats (live_sst_files_size : Queue -> Z) (w : S3FIFORocksDB)
  : Statistics :=
  {| small_items := small_queue_items_ w;
     main_items := main_queue_items_ w;
     ghost_items := ghost_queue_items_ w;
     small_size := live_sst_files_size Small;
     main_size := live_sst_files_size Main;
     ghost_size := live_sst_files_size Ghost |}.

(** ** Construction *)

(** What the constructor meets on the host: whether the directories can
    be created, and for each store the status of [rocksdb::DB::Open]
    with the entries found under its path. *)
Record Host := mkHost {
  create_directories_ok : bool;
  Open : Queue -> Status * Backend.DB
}.

Inductive Exception :=
  | filesystem_error
  | runtime_error (failed : Queue) (status : Status).

(** The outcome of a constructor call: an exception, an object, or no
    defined behaviour (a size that does not convert to [size_t]). *)
Inductive Construction :=
  | Thrown (e : Exception)
  | Constructed (w : S3FIFORocksDB)
  | Undefined.

(** The member initialisers. *)
Definition derive_sizes (total_size : Z) (small_ratio ghost_ratio : spec_float)
  : option Config :=
  let total := Double.of_Z total_size in
  match Double.to_size (Double.mul total small_ratio),
        Double.to_size (Double.mul total (Double.sub Double.one small_ratio)),
        Double.to_size (Double.mul total ghost_ratio) with
  | Some small, Some main, Some ghost =>
      Some (mkConfig total_size small_ratio ghost_ratio small main ghost)
  | _, _, _ => None
  end.

(** The object over three opened stores: all counters at zero, nothing
    tracked. *)
Definition opened (cfg : Config) (small main ghost : Backend.DB)
  : S3FIFORocksDB :=
  mkCache cfg small main ghost 0 0 0 0 ∅ ∅ [] 0%nat 0%nat.

(** A cache over empty stores. *)
Definition fresh (cfg : Config) : S3FIFORocksDB := opened cfg [] [] [].

(** [S3FIFORocksDB(path, total_size, small_ratio, ghost_ratio)]; [path]
    only says where on the host the directories and stores live. *)
Definition S3FIFORocksDB_ctor (host : Host) (total_size : Z)
  (small_ratio ghost_ratio : spec_float) : Construction :=
  match derive_sizes total_size small_ratio ghost_ratio with
  | None => Undefined
  | Some cfg =>
      if negb (create_directories_ok host) then Thrown filesystem_error
      else
        let (status_small, small) := Open host Small in
        if negb (ok status_small) then Thrown (runtime_error Small status_small)
        else
          let (status_main, main) := Open host Main in
          if negb (ok status_main) then Thrown (runtime_error Main status_main)
          else
            let (status_ghost, ghost) := Open host Ghost in
            if negb (ok status_ghost) then Thrown (runtime_error Ghost status_ghost)
            else Constructed (opened cfg small main ghost)
  end.

(** ** Sequences of public operations *)

Inductive Op :=
  | op_put (key value : string)
  | op_get (key : string).

Definition step (env : Env) (op : Op) (w : S3FIFORocksDB) : S3FIFORocksDB :=
  match op with
  | op_put key value => snd (put env key value w)
  | op_get key => snd (get env key w)
  end.

Definition run (env : Env) (ops : list Op) (w : S3FIFORocksDB) : S3FIFORocksDB :=
  fold_left (fun w op => step env op w) ops w.

(** An environment in which no backend call fails; [rand()] returns 0. *)
Definition quiet : Env := mkEnv (fun _ => false) (fun _ => 0) 2147483647.

(** The environment never fails a backend call. *)
Definition fault_free (env : Env) : Prop := forall n, io_fault env n = false.

(** ** Views of the state used in the statements *)

Definition in_small (key : string) (w : S3FIFORocksDB) : bool :=
  Backend.contains key (small_db_ w).
Definition in_main (key : string) (w : S3FIFORocksDB) : bool :=
  Backend.contains key (main_db_ w).
Definition in_ghost (key : string) (w : S3FIFORocksDB) : bool :=
  Backend.contains key (ghost_db_ w).

(** The access count the promotion guard reads for a key. *)
Definition access_count_of (key : string) (w : S3FIFORocksDB) : Z :=
  default 0 (access_counts_ w !! key).

(** The key is in the small or in the main queue. *)
Definition resident (key : string) (w : S3FIFORocksDB) : bool :=
  in_small key w || in_main key w.

(** No key is in the small and in the main queue at once. *)
Definition small_main_disjoint (w : S3FIFORocksDB) : Prop :=
  forall k, in_small k w && in_main k w = false.

(** Every queue is within its budget, a queue's size being its number
    of entries times the average value size. *)
Definition within_budgets (w : S3FIFORocksDB) : Prop :=
  Backend.items (small_db_ w) * getAverageValueSize <= small_size_ (config w) /\
  Backend.items (main_db_ w) * getAverageValueSize <= main_size_ (config w) /\
  Backend.items (ghost_db_ w) * getAverageValueSize <= ghost_size_ (config w).

(** The main queue is within its budget, by its entries and by its
    item counter. *)
Definition main_within_budget (w : S3FIFORocksDB) : Prop :=
  Backend.items (main_db_ w) * getAverageValueSize <= main_size_ (config w) /\
  main_queue_items_ w * getAverageValueSize <= main_size_ (config w).

(** The key the eviction step of [put key value] removes from the main
    queue, if the step runs: the budget test of [put], and the first
    entry the iterator of [evictFromMain] then sees. *)
Definition evicted_by_put (key value : string) (w : S3FIFORocksDB)
  : option string :=
  if main_size_ (config w)
     <? wrap64 (wrap64 (main_queue_items_ w + 1) * getAverageValueSize)
  then fst <$> Backend.SeekToFirst (Backend.Put key value (main_db_ w))
  else None.

(** The ratios the specification admits: [0 < small_ratio < 1] and
    [0 < ghost_ratio <= 1]. *)
Definition ratios_in_range (small_ratio ghost_ratio : spec_float) : bool :=
  SFltb Double.zero small_ratio && SFltb small_ratio Double.one &&
  SFltb Double.zero ghost_ratio && SFleb ghost_ratio Double.one.


(** ** Concrete configurations and environments *)

(** [0.5] and a cache of two values: one value per queue. *)
Definition lit_0_5 : spec_float := S754_finite false 4503599627370496 (-53).

Definition two_values : Config :=
  mkConfig 8192 lit_0_5 lit_0_5 4096 4096 4096.

(** The cache of the example driver scaled to values of the average
    size: ten values, ratios 0.1 and 0.1. *)
Definition ten_values : Config :=
  mkConfig 40960 Double.lit_0_1 Double.lit_0_1 4096 36864 4096.

(** The budgets of the example driver: 10 MiB, ratios 0.1 and 0.1. *)
Definition driver_values : Config :=
  mkConfig 10485760 Double.lit_0_1 Double.lit_0_1 1048576 9437184 1048576.

(** An environment in which exactly the [n]-th backend call fails. *)
Definition failing_at (n : nat) : Env :=
  mkEnv (fun i => Nat.eqb i n) (fun _ => 0) 2147483647.

(** An environment in which no backend call fails and [rand()] always
    returns [r] out of [RAND_MAX] = 2^31 - 1. *)
Definition drawing (r : Z) : Env :=
  mkEnv (fun _ => false) (fun _ => r) 2147483647.

(** A cache with "K" in the main queue and [c] accesses counted for it
    (a state that [handleAccess] would build; [put] and [get] do not). *)
Definition counted_K (c : Z) : S3FIFORocksDB :=
  mkCache two_values [] [("K", "v")] [] 0 1 0 0 ∅ {["K" := c]} []
    0%nat 0%nat.

(** A host on which every directory can be created and every store
    opens empty. *)
Definition clean_host : Host := mkHost true (fun _ => (OK, [])).

(** A cache whose tracker holds one entry for "K", which sits in the
    small queue, at logical time [clock]. *)
Definition tracked_K (clock : Z) (info_ : AccessInfo) : S3FIFORocksDB :=
  mkCache two_values [("K", "v")] [] [] 1 0 0 clock {["K" := info_]} ∅ []
    0%nat 0%nat.

(** The invariant behind the budget of the main queue: nothing is
    tracked, the counter bounds the number of entries, and the counter
    is within budget. *)
Definition main_invariant (w : S3FIFORocksDB) : Prop :=
  access_tracker_ w = ∅ /\
  Backend.items (main_db_ w) <= main_queue_items_ w /\
  main_queue_items_ w * getAverageValueSize <= main_size_ (config w).


(** ** Tracker clean-up *)

Definition with_access_tracker (w : S3FIFORocksDB)
  (x : gmap string AccessInfo) : S3FIFORocksDB :=
  mkCache (config w) (small_db_ w) (main_db_ w) (ghost_db_ w)
    (small_queue_items_ w) (main_queue_items_ w) (ghost_queue_items_ w)
    (access_count_ w) x (access_counts_ w)
    (logger_ w) (backend_calls w) (rand_calls w).

(** [cleanupAccessTracker()]: the loop erases every entry whose
    [last_access] is below the threshold, an unsigned difference. *)
Definition cleanupAccessTracker : M unit :=
  modify (fun w =>
    let current_access := access_count_ w in
    let threshold := wrap64 (current_access - 1000000) in
    with_access_tracker w
      (filter (fun entry => ~ (last_access (snd entry) < threshold))
              (access_tracker_ w))).

(** ** Views of a sequence of operations *)

(** The number of [put]s in a sequence. *)
Fixpoint puts (ops : list Op) : Z :=
  match ops with
  | [] => 0
  | op_put _ _ :: rest => 1 + puts rest
  | op_get _ :: rest => puts rest
  end.

(** The value the sequence writes last under [key], starting from
    [before]. *)
Definition written (key : string) (ops : list Op) (before : option string)
  : option string :=
  fold_left
    (fun acc op =>
       match op with
       | op_put k v => if String.eqb k key then Some v else acc
       | op_get _ => acc
       end)
    ops before.

(** Nothing is in the small or the ghost queue, no access is counted,
    and the main queue has counted [n] items. *)
Definition only_main (n : Z) (w : S3FIFORocksDB) : Prop :=
  small_db_ w = [] /\ ghost_db_ w = [] /\
  main_queue_items_ w = n /\
  forall k, access_count_of k w = 0.

(** Every item counter bounds the number of entries of its queue, and
    no counter exceeds [n], the number of operations so far. *)
Definition entries_invariant (n : Z) (w : S3FIFORocksDB) : Prop :=
  access_tracker_ w = ∅ /\
  Backend.items (small_db_ w) <= small_queue_items_ w /\
  Backend.items (main_db_ w) <= main_queue_items_ w /\
  Backend.items (ghost_db_ w) <= ghost_queue_items_ w /\
  small_queue_items_ w + main_queue_items_ w <= n /\
  ghost_queue_items_ w <= n.

(** ** More concrete states *)

(** A cache with "K" in the small queue under "old" and in the main
    queue under "m". *)
Definition K_in_both : S3FIFORocksDB :=
  mkCache ten_values [("K", "old")] [("K", "m")] [] 1 1 0 0 ∅ ∅ []
    0%nat 0%nat.

(** A cache with "K" in the main queue only. *)
Definition K_in_main : S3FIFORocksDB :=
  mkCache ten_values [] [("K", "v")] [] 0 1 0 0 ∅ ∅ [] 0%nat 0%nat.

(** A cache whose small queue holds "E" and counts as full: its budget
    is zero bytes.  [c] accesses are counted for "E". *)
Definition small_full (c : Z) : S3FIFORocksDB :=
  mkCache (mkConfig 40960 Double.zero Double.lit_0_1 0 40960 4096)
    [("E", "e")] [] [] 1 0 0 0 ∅ {["E" := c]} [] 0%nat 0%nat.

(** A cache with an empty small queue that counts as full. *)
Definition small_empty_full : S3FIFORocksDB :=
  mkCache (mkConfig 40960 Double.zero Double.lit_0_1 0 40960 4096)
    [] [] [] 0 0 0 0 ∅ ∅ [] 0%nat 0%nat.

(** A tracker with an entry for "K" last touched at [t], at logical
    time [clock]. *)
Definition tracker_at (clock t : Z) : S3FIFORocksDB :=
  mkCache two_values [] [] [] 0 0 0 clock {["K" := mkAccessInfo 3 t]} ∅ []
    0%nat 0%nat.


(** A cache of four values: two for the small queue, two for the main
    queue. *)
Definition four_values : Config :=
  mkConfig 16384 lit_0_5 lit_0_5 8192 8192 8192.


(** * Properties *)

(** ** The store operations *)

Section BackendFacts.
Implicit Types (key k : string) (db : Backend.DB).

Lemma Get_Put_same key value db :
  Backend.Get key (Backend.Put key value db) = Some value.
Proof.
  induction db as [|[k v] rest IH]; simpl.
  - now rewrite String.eqb_refl.
  - destruct (String.eqb k key) eqn:E; simpl; now rewrite E.
Qed.

Lemma Get_Put_other key k value db :
  key <> k -> Backend.Get k (Backend.Put key value db) = Backend.Get k db.
Proof.
  intros Hne. induction db as [|[k' v] rest IH]; simpl.
  - apply String.eqb_neq in Hne. now rewrite Hne.
  - destruct (String.eqb k' key) eqn:E; simpl.
    + apply String.eqb_eq in E. subst k'.
      apply String.eqb_neq in Hne. now rewrite Hne.
    + now rewrite IH.
Qed.

Lemma Get_Delete_same key db :
  Backend.Get key (Backend.Delete key db) = None.
Proof.
  induction db as [|[k v] rest IH]; simpl; [reflexivity|].
  destruct (String.eqb k key) eqn:E; simpl; [assumption|now rewrite E].
Qed.

Lemma Get_Delete_other key k db :
  key <> k -> Backend.Get k (Backend.Delete key db) = Backend.Get k db.
Proof.
  intros Hne. induction db as [|[k' v] rest IH]; simpl; [reflexivity|].
  destruct (String.eqb k' key) eqn:E; simpl.
  - apply String.eqb_eq in E. subst k'.
    apply String.eqb_neq in Hne. now rewrite Hne.
  - now rewrite IH.
Qed.

Lemma contains_Put_same key value db :
  Backend.contains key (Backend.Put key value db) = true.
Proof. unfold Backend.contains. now rewrite Get_Put_same. Qed.

Lemma contains_Put_other key k value db :
  key <> k ->
  Backend.contains k (Backend.Put key value db) = Backend.contains k db.
Proof. intros. unfold Backend.contains. now rewrite Get_Put_other. Qed.

Lemma contains_Delete_same key db :
  Backend.contains key (Backend.Delete key db) = false.
Proof. unfold Backend.contains. now rewrite Get_Delete_same. Qed.

Lemma contains_Delete_other key k db :
  key <> k ->
  Backend.contains k (Backend.Delete key db) = Backend.contains k db.
Proof. intros. unfold Backend.contains. now rewrite Get_Delete_other. Qed.

(** Deleting can only remove keys. *)
Lemma contains_Delete_true key k db :
  Backend.contains k (Backend.Delete key db) = true ->
  Backend.contains k db = true.
Proof.
  destruct (String.eqb_spec key k) as [->|Hne].
  - now rewrite contains_Delete_same.
  - now rewrite contains_Delete_other.
Qed.

Lemma contains_Get key db value :
  Backend.Get key db = Some value -> Backend.contains key db = true.
Proof. unfold Backend.contains. now intros ->. Qed.

Lemma contains_false_Get key db :
  Backend.contains key db = false -> Backend.Get key db = None.
Proof. unfold Backend.contains. now destruct (Backend.Get key db). Qed.

Lemma length_Put key value db :
  (length (Backend.Put key value db) <= S (length db))%nat.
Proof.
  induction db as [|[k v] rest IH]; simpl; [lia|].
  destruct (String.eqb k key); simpl; lia.
Qed.

Lemma Put_nonempty key value db : Backend.Put key value db <> [].
Proof.
  destruct db as [|[k v] rest]; simpl; [discriminate|].
  destruct (String.eqb k key); discriminate.
Qed.

Lemma length_Delete key db :
  (length (Backend.Delete key db) <= length db)%nat.
Proof.
  induction db as [|[k v] rest IH]; simpl; [lia|].
  destruct (String.eqb k key); simpl; lia.
Qed.

(** Deleting a key the store holds makes it shorter. *)
Lemma length_Delete_contained key db :
  Backend.contains key db = true ->
  (S (length (Backend.Delete key db)) <= length db)%nat.
Proof.
  unfold Backend.contains.
  induction db as [|[k v] rest IH]; simpl; [discriminate|].
  destruct (String.eqb k key); simpl; intros H.
  - pose proof (length_Delete key rest). lia.
  - specialize (IH H). lia.
Qed.

Lemma SeekToFirst_contains key value db :
  Backend.SeekToFirst db = Some (key, value) ->
  Backend.contains key db = true.
Proof.
  destruct db as [|[k v] rest]; simpl; [discriminate|].
  intros [= -> ->]. unfold Backend.contains. simpl.
  now rewrite String.eqb_refl.
Qed.
End BackendFacts.

Arguments Backend.Put : simpl never.
Arguments Backend.Get : simpl never.
Arguments Backend.Delete : simpl never.
Arguments Backend.SeekToFirst : simpl never.
Arguments Backend.contains : simpl never.
Arguments wrap64 : simpl never.
Arguments to_uint32 : simpl never.

Lemma wrap64_small x : 0 <= x < 2 ^ 64 -> wrap64 x = x.
Proof. intros H. unfold wrap64. now apply Z.mod_small. Qed.


(** ** Running the member functions symbolically *)

Ltac unfold_members :=
  unfold get, put, evictFromMain, shouldPromoteToSmall, quickDemotion,
    promoteToSmall, rand_below_threshold, rand, access_counts_at,
    set_access_counts_at,
    Put, Get, Delete, NewIterator_SeekToFirst, backend_call,
    small_queue_items_incr, small_queue_items_decr, main_queue_items_incr,
    main_queue_items_decr, ghost_queue_items_incr,
    when, log, modify, gets, bind, ret.

(** Case analysis on the innermost scrutinee in the goal. *)
Ltac case_split :=
  match goal with
  | |- context [match ?x with _ => _ end] =>
      lazymatch x with
      | context [match _ with _ => _ end] => fail
      | _ => destruct x eqn:?
      end
  end.

(** All paths, whatever the environment does. *)
Ltac exec := unfold_members; simpl; repeat (case_split; simpl).

(** The paths of an environment whose backend calls all succeed. *)
Ltac exec_ff H :=
  unfold_members; simpl; repeat (first [rewrite !H | case_split]; simpl).

(** ** What the public operations never touch *)

Lemma get_frame env key w :
  let w' := snd (get env key w) in
  config w' = config w /\
  access_tracker_ w' = access_tracker_ w /\
  ghost_db_ w' = ghost_db_ w /\
  ghost_queue_items_ w' = ghost_queue_items_ w.
Proof. exec; auto. Qed.

Lemma put_frame env key value w :
  let w' := snd (put env key value w) in
  config w' = config w /\
  access_tracker_ w' = access_tracker_ w /\
  access_counts_ w' = access_counts_ w /\
  access_count_ w' = access_count_ w /\
  small_queue_items_ w' = small_queue_items_ w.
Proof. exec; auto. Qed.

(** The only write [get] makes to [access_counts_] is the zero that
    [operator[]] enters for a key it does not hold. *)
Lemma get_access_count_of env key k w :
  access_count_of k (snd (get env key w)) = access_count_of k w.
Proof.
  unfold access_count_of. exec; auto.
  all: destruct (decide (key = k)) as [->|Hne];
    [rewrite lookup_insert_eq | now rewrite lookup_insert_ne].
  all: match goal with H : _ !! _ = None |- _ => now rewrite H end.
Qed.

Lemma put_access_count_of env key value k w :
  access_count_of k (snd (put env key value w)) = access_count_of k w.
Proof.
  unfold access_count_of.
  now destruct (put_frame env key value w) as (_ & _ & -> & _).
Qed.

Lemma step_access_count_of env op k w :
  access_count_of k (step env op w) = access_count_of k w.
Proof.
  destruct op; simpl; [apply put_access_count_of | apply get_access_count_of].
Qed.

Lemma step_frame env op w :
  config (step env op w) = config w /\
  access_tracker_ (step env op w) = access_tracker_ w.
Proof.
  destruct op as [key value|key]; simpl.
  - now destruct (put_frame env key value w) as (-> & -> & _).
  - now destruct (get_frame env key w) as (-> & -> & _).
Qed.

(** A property the steps preserve holds along every run. *)
Lemma run_invariant env (P : S3FIFORocksDB -> Prop) :
  (forall op w, P w -> P (step env op w)) ->
  forall ops w, P w -> P (run env ops w).
Proof.
  intros Hstep ops. unfold run.
  induction ops as [|op ops IH]; simpl; intros w Hw; [assumption|].
  apply IH, Hstep, Hw.
Qed.

Lemma run_access_tracker env ops w :
  access_tracker_ (run env ops w) = access_tracker_ w.
Proof.
  apply (run_invariant env (fun w' => access_tracker_ w' = access_tracker_ w));
    [|reflexivity].
  intros op w' <-. apply step_frame.
Qed.

Lemma run_access_count_of env ops k w :
  access_count_of k (run env ops w) = access_count_of k w.
Proof.
  apply (run_invariant env
           (fun w' => access_count_of k w' = access_count_of k w));
    [|reflexivity].
  intros op w' <-. apply step_access_count_of.
Qed.

(** ** The operations when no backend call fails *)

Section FaultFree.
Variable env : Env.
Hypothesis Hff : fault_free env.

(** What [get] returns is decided by the two stores alone. *)
Lemma get_result key w :
  fst (get env key w) =
  match Backend.Get key (small_db_ w) with
  | Some value => (OK, Some value)
  | None =>
      match Backend.Get key (main_db_ w) with
      | Some value => (OK, Some value)
      | None => (NotFound, None)
      end
  end.
Proof. exec_ff Hff; auto. Qed.

(** [get] leaves the small and the main queue alone, or demotes the
    key, or promotes it. *)
Lemma get_effect key w :
  let w' := snd (get env key w) in
  (small_db_ w' = small_db_ w /\ main_db_ w' = main_db_ w /\
   small_queue_items_ w' = small_queue_items_ w /\
   main_queue_items_ w' = main_queue_items_ w)
  \/ (exists value info_,
        Backend.Get key (small_db_ w) = Some value /\
        access_tracker_ w !! key = Some info_ /\
        small_db_ w' = Backend.Delete key (small_db_ w) /\
        main_db_ w' = Backend.Put key value (main_db_ w) /\
        small_queue_items_ w' = wrap64 (small_queue_items_ w - 1) /\
        main_queue_items_ w' = wrap64 (main_queue_items_ w + 1))
  \/ (exists value,
        Backend.Get key (small_db_ w) = None /\
        Backend.Get key (main_db_ w) = Some value /\
        small_db_ w' = Backend.Put key value (small_db_ w) /\
        main_db_ w' = Backend.Delete key (main_db_ w) /\
        small_queue_items_ w' = wrap64 (small_queue_items_ w + 1) /\
        main_queue_items_ w' = wrap64 (main_queue_items_ w - 1)).
Proof.
  exec_ff Hff; simplify_eq.
  all: try (left; repeat split; reflexivity).
  all: try (right; left; do 2 eexists; repeat split; reflexivity).
  all: right; right; eexists; repeat split; reflexivity.
Qed.

(** [put] writes the main queue, refreshes the small queue's copy,
    and runs one eviction step when the counter is over budget. *)
Lemma put_effect key value w :
  let M1 := Backend.Put key value (main_db_ w) in
  let c1 := wrap64 (main_queue_items_ w + 1) in
  let S1 := if in_small key w then Backend.Put key value (small_db_ w)
            else small_db_ w in
  let w' := snd (put env key value w) in
  fst (put env key value w) = OK /\
  small_db_ w' = S1 /\
  if main_size_ (config w) <? wrap64 (c1 * getAverageValueSize) then
    match Backend.SeekToFirst M1 with
    | Some (k_old, _) =>
        main_db_ w' = Backend.Delete k_old M1 /\
        main_queue_items_ w' = wrap64 (c1 - 1) /\
        ghost_db_ w' = (if Backend.contains k_old S1 then ghost_db_ w
                        else Backend.Put k_old "" (ghost_db_ w)) /\
        ghost_queue_items_ w' =
          (if Backend.contains k_old S1 then ghost_queue_items_ w
           else wrap64 (ghost_queue_items_ w + 1))
    | None => main_db_ w' = M1
    end
  else
    main_db_ w' = M1 /\ main_queue_items_ w' = c1 /\
    ghost_db_ w' = ghost_db_ w /\
    ghost_queue_items_ w' = ghost_queue_items_ w.
Proof.
  unfold in_small, Backend.contains. exec_ff Hff; auto 10.
Qed.

(** The first entry of a store that was just written exists. *)
Lemma SeekToFirst_Put key value db :
  exists k_old v_old,
    Backend.SeekToFirst (Backend.Put key value db) = Some (k_old, v_old).
Proof.
  pose proof (Put_nonempty key value db) as Hne.
  destruct (Backend.Put key value db) as [|[k v] rest]; [easy|].
  now exists k, v.
Qed.
End FaultFree.

Example two_values_derived :
  derive_sizes 8192 lit_0_5 lit_0_5 = Some two_values.
Proof. reflexivity. Qed.

Example driver_values_derived :
  derive_sizes 10485760 Double.lit_0_1 Double.lit_0_1 = Some driver_values.
Proof. reflexivity. Qed.

Example ten_values_derived :
  derive_sizes 40960 Double.lit_0_1 Double.lit_0_1 = Some ten_values.
Proof. reflexivity. Qed.

(** Overwriting a key a store holds changes no membership. *)
Lemma contains_Put_contained key k value db :
  Backend.contains key db = true ->
  Backend.contains k (Backend.Put key value db) = Backend.contains k db.
Proof.
  intros Hin. destruct (String.eqb_spec key k) as [<-|Hne].
  - now rewrite contains_Put_same.
  - now apply contains_Put_other.
Qed.

Lemma contains_Put_true key k value db :
  Backend.contains k (Backend.Put key value db) = true ->
  k = key \/ Backend.contains k db = true.
Proof.
  destruct (String.eqb_spec key k) as [<-|Hne]; [now left|].
  rewrite contains_Put_other by assumption. now right.
Qed.

(** ** Small and main queue: overlap *)

(** C1, as claimed, fails: after its own promotion to the small queue,
    a further [put] of "X" leaves "X" in the small and in the main
    queue. *)
Lemma put_on_small_resident_overlaps :
  ~ small_main_disjoint
      (run quiet [op_put "X" "x1"; op_put "Y" "y1"; op_put "X" "x2";
                  op_get "X"; op_put "X" "x3"] (fresh two_values)).
Proof.
  intros H. specialize (H "X"). vm_compute in H. discriminate.
Qed.

(** C1, amended: when no backend call fails, [get] never brings a key
    into both the small and the main queue; [put key value] can do so
    for [key] only, and only when [key] is in the small queue; and it
    then does leave [key] in both queues, unless its own eviction step
    removes [key] from the main queue. *)
Theorem overlap_only_by_put_on_small_resident env :
  fault_free env ->
  (forall key w,
      small_main_disjoint w -> small_main_disjoint (snd (get env key w)))
  /\ (forall key value w k,
        in_small k (snd (put env key value w))
        && in_main k (snd (put env key value w)) = true ->
        in_small k w && in_main k w = true \/
        (k = key /\ in_small key w = true))
  /\ (forall key value w,
        in_small key w = true ->
        evicted_by_put key value w <> Some key ->
        in_small key (snd (put env key value w)) = true /\
        in_main key (snd (put env key value w)) = true).
Proof.
  intros Hff. split; [|split].
  - intros key w Hdis k. specialize (Hdis k). unfold in_small, in_main in *.
    destruct (get_effect env Hff key w)
      as [(-> & -> & _)|[(v & i & _ & _ & -> & -> & _)|(v & _ & _ & -> & -> & _)]].
    + assumption.
    + destruct (String.eqb_spec key k) as [<-|Hne].
      * now rewrite contains_Delete_same.
      * now rewrite contains_Delete_other, contains_Put_other.
    + destruct (String.eqb_spec key k) as [<-|Hne].
      * rewrite contains_Delete_same. apply andb_false_r.
      * now rewrite contains_Delete_other, contains_Put_other.
  - intros key value w k Hboth.
    apply andb_true_iff in Hboth as [HS HM].
    destruct (put_effect env Hff key value w) as (_ & HS1 & Hrest).
    unfold in_small, in_main in *. rewrite HS1 in HS.
    assert (HS0 : Backend.contains k (small_db_ w) = true).
    { destruct (Backend.contains key (small_db_ w)) eqn:Hin; [|assumption].
      now rewrite contains_Put_contained in HS. }
    assert (HM1 : Backend.contains k
                    (Backend.Put key value (main_db_ w)) = true).
    { destruct (_ <? _) in Hrest.
      - destruct (Backend.SeekToFirst _) as [[k_old v_old]|].
        + destruct Hrest as (HM' & _). rewrite HM' in HM.
          now apply contains_Delete_true in HM.
        + now rewrite Hrest in HM.
      - destruct Hrest as (HM' & _). now rewrite HM' in HM. }
    apply contains_Put_true in HM1 as [->|HM0].
    + right. now split.
    + left. now rewrite HS0, HM0.
  - intros key value w Hin Hev.
    destruct (put_effect env Hff key value w) as (_ & HS1 & Hrest).
    unfold evicted_by_put in Hev. unfold in_small, in_main in *.
    rewrite HS1, Hin. split; [apply contains_Put_same|].
    destruct (_ <? _) in Hrest, Hev.
    + destruct (Backend.SeekToFirst _) as [[k_old v_old]|]; simpl in Hev.
      * destruct Hrest as (-> & _).
        rewrite contains_Delete_other by congruence.
        apply contains_Put_same.
      * rewrite Hrest. apply contains_Put_same.
    + destruct Hrest as (-> & _). apply contains_Put_same.
Qed.

(** The third part at the [put] that ends the run above. *)
Lemma overlap_only_by_put_on_small_resident_witness :
  fault_free quiet /\
  let w := run quiet [op_put "X" "x1"; op_put "Y" "y1"; op_put "X" "x2";
                      op_get "X"] (fresh two_values) in
  in_small "X" (snd (put quiet "X" "x3" w)) = true /\
  in_main "X" (snd (put quiet "X" "x3" w)) = true.
Proof.
  split; [intros n; reflexivity|].
  intros w.
  apply (overlap_only_by_put_on_small_resident quiet
           (fun n => eq_refl) : _ /\ _ /\ _).
  - reflexivity.
  - vm_compute. discriminate.
Defined.

(** ** Ghost hits *)

Ltac unfold_private :=
  unfold handleAccess, handleCacheMiss, evictOldestFromSmall.

(** The private [handleAccess] clears the ghost entry when it promotes
    on a ghost hit. *)
Lemma handleAccess_ghost_hit_clears_ghost env key value value0 w :
  fault_free env ->
  Backend.Get key (small_db_ w) = None ->
  Backend.Get key (main_db_ w) = Some value ->
  in_ghost key w = true ->
  let w' := snd (handleAccess env key value0 w) in
  in_small key w' = true /\ in_main key w' = false /\ in_ghost key w' = false.
Proof.
  intros Hff HS HM HG. unfold in_small, in_main, in_ghost in *.
  unfold Backend.contains in HG. unfold_private.
  exec_ff Hff; rewrite ?HS, ?HM in *; simplify_eq.
  all: try (destruct (Backend.Get key (ghost_db_ w)); discriminate).
  all: now rewrite contains_Put_same, !contains_Delete_same.
Qed.

(** C2: the public [get] promotes on a ghost hit whatever the access
    count and without drawing a random number, and leaves the key in
    the small queue and out of the main queue; but the key stays in
    the ghost queue, which [get] never writes. *)
Theorem ghost_hit_leaves_ghost_entry env key value w :
  fault_free env ->
  Backend.Get key (small_db_ w) = None ->
  Backend.Get key (main_db_ w) = Some value ->
  in_ghost key w = true ->
  let w' := snd (get env key w) in
  fst (get env key w) = (OK, Some value) /\
  rand_calls w' = rand_calls w /\
  in_small key w' = true /\ in_main key w' = false /\
  in_ghost key w' = true /\ ghost_db_ w' = ghost_db_ w.
Proof.
  intros Hff HS HM HG. unfold in_small, in_main, in_ghost in *.
  unfold Backend.contains in HG.
  exec_ff Hff; rewrite ?HS, ?HM in *; simplify_eq.
  all: try (destruct (Backend.Get key (ghost_db_ w)); discriminate).
  all: rewrite contains_Put_same, contains_Delete_same.
  all: unfold Backend.contains;
    now destruct (Backend.Get key (ghost_db_ w)).
Qed.

(** The theorem at the ghost hit on "X" after [put X; put Y; put X]. *)
Lemma ghost_hit_leaves_ghost_entry_witness :
  fault_free quiet /\
  let w := run quiet [op_put "X" "x1"; op_put "Y" "y1"; op_put "X" "x2"]
             (fresh two_values) in
  Backend.Get "X" (small_db_ w) = None /\
  Backend.Get "X" (main_db_ w) = Some "x2" /\
  in_ghost "X" w = true /\
  fst (get quiet "X" w) = (OK, Some "x2") /\
  rand_calls (snd (get quiet "X" w)) = rand_calls w /\
  in_small "X" (snd (get quiet "X" w)) = true /\
  in_main "X" (snd (get quiet "X" w)) = false /\
  in_ghost "X" (snd (get quiet "X" w)) = true /\
  ghost_db_ (snd (get quiet "X" w)) = ghost_db_ w.
Proof.
  split; [intros n; reflexivity|].
  intros w.
  split; [reflexivity|]. split; [reflexivity|]. split; [reflexivity|].
  apply (ghost_hit_leaves_ghost_entry quiet "X" "x2" w (fun n => eq_refl));
    reflexivity.
Defined.

(** ** Access counts *)

(** The private [handleAccess] counts a hit in the small queue. *)
Lemma handleAccess_counts_small_hit env key value value0 w :
  fault_free env ->
  Backend.Get key (small_db_ w) = Some value ->
  access_count_of key (snd (handleAccess env key value0 w))
  = access_count_of key w + 1.
Proof.
  intros Hff HS. unfold access_count_of. unfold_private.
  exec_ff Hff; rewrite ?HS in *; simplify_eq.
  all: now rewrite ?lookup_insert_eq.
Qed.

(** C3: the public [get] counts nothing.  It leaves the access count of
    every key, and the tracker, as they were; so along every run from a
    new cache every access count is 0, no key is tracked, and the guard
    [access_counts_[key] > 1] of the probabilistic promotion is false. *)
Theorem get_never_counts_access :
  (forall env key k w,
      access_count_of k (snd (get env key w)) = access_count_of k w /\
      access_tracker_ (snd (get env key w)) = access_tracker_ w)
  /\ (forall env cfg ops k,
        let w := run env ops (fresh cfg) in
        access_count_of k w = 0 /\
        access_tracker_ w !! k = None /\
        (1 <? access_count_of k w) = false).
Proof.
  split.
  - intros env key k w. split; [apply get_access_count_of|].
    now destruct (get_frame env key w) as (_ & -> & _).
  - intros env cfg ops k w. subst w.
    rewrite run_access_count_of, run_access_tracker.
    repeat split.
Qed.

(** The probabilistic path, for reference: with two accesses counted a
    draw promotes exactly when [rand() / RAND_MAX < 0.01]; with one
    access counted nothing is drawn. *)
Example slow_promotion_threshold :
  in_small "K" (snd (get (drawing 21474836) "K" (counted_K 2))) = true /\
  in_small "K" (snd (get (drawing 21474837) "K" (counted_K 2))) = false /\
  in_small "K" (snd (get (drawing 0) "K" (counted_K 1))) = false /\
  rand_calls (snd (get (drawing 0) "K" (counted_K 1))) = 0%nat.
Proof. repeat split. Qed.

(** After [put A; get A; get A] the count of "A" is still 0. *)
Example get_twice_counts_nothing :
  access_count_of "A"
    (run quiet [op_put "A" "valueA"; op_get "A"; op_get "A"]
       (fresh two_values)) = 0.
Proof. reflexivity. Qed.

(** ** Main eviction *)

(** C4, as claimed, fails: the third [put] evicts "B" into a ghost
    queue that then holds two entries against a budget of one value,
    and the ghost queue's oldest key "A" is not dropped. *)
Lemma eviction_never_trims_ghost :
  let w := run quiet [op_put "A" "a"; op_put "B" "b"; op_put "C" "c"]
             (fresh two_values) in
  ghost_db_ w = [("A", ""); ("B", "")] /\
  ghost_size_ (config w) < Backend.items (ghost_db_ w) * getAverageValueSize /\
  ghost_size_ (config w) < ghost_queue_items_ w * getAverageValueSize.
Proof. vm_compute. repeat split. Qed.

(** C4, amended: when no backend call fails and [put] drives the item
    counter of the main queue over its budget, [put] runs the eviction
    step once.  The step takes the oldest entry [k_old] of the main
    queue, writes [k_old] with an empty value to the ghost queue
    exactly when the small queue does not hold [k_old] (nothing leaves
    the ghost queue), and deletes [k_old] from the main queue.  One
    step brings the counter back within a budget it was within before
    the [put]. *)
Theorem put_runs_one_eviction_step env key value w k_old v_old :
  fault_free env ->
  main_size_ (config w)
  < wrap64 (wrap64 (main_queue_items_ w + 1) * getAverageValueSize) ->
  Backend.SeekToFirst (Backend.Put key value (main_db_ w))
  = Some (k_old, v_old) ->
  let w' := snd (put env key value w) in
  main_db_ w' = Backend.Delete k_old (Backend.Put key value (main_db_ w)) /\
  ghost_db_ w' = (if in_small k_old w' then ghost_db_ w
                  else Backend.Put k_old "" (ghost_db_ w)) /\
  ghost_queue_items_ w' = (if in_small k_old w' then ghost_queue_items_ w
                           else wrap64 (ghost_queue_items_ w + 1)) /\
  main_queue_items_ w' = wrap64 (wrap64 (main_queue_items_ w + 1) - 1) /\
  (0 <= main_queue_items_ w ->
   main_queue_items_ w * getAverageValueSize <= main_size_ (config w) ->
   main_size_ (config w) + getAverageValueSize < 2 ^ 64 ->
   main_queue_items_ w' = main_queue_items_ w).
Proof.
  intros Hff Hover Hfirst w'.
  destruct (put_effect env Hff key value w) as (_ & HS1 & Hrest).
  apply Z.ltb_lt in Hover. rewrite Hover, Hfirst in Hrest.
  destruct Hrest as (HM & Hc & HG & Hgc).
  fold w' in HS1, HM, Hc, HG, Hgc. unfold in_small. rewrite HS1.
  repeat split; try assumption.
  intros H0 Hin Hsz. rewrite Hc. unfold getAverageValueSize in *.
  rewrite (wrap64_small (main_queue_items_ w + 1)) by lia.
  rewrite wrap64_small by lia. lia.
Qed.

(** The theorem at the [put] of "C" that evicts "B". *)
Lemma put_runs_one_eviction_step_witness :
  fault_free quiet /\
  let w := run quiet [op_put "A" "a"; op_put "B" "b"] (fresh two_values) in
  let w' := snd (put quiet "C" "c" w) in
  main_db_ w = [("B", "b")] /\ ghost_db_ w = [("A", "")] /\
  main_db_ w' = Backend.Delete "B" (Backend.Put "C" "c" (main_db_ w)) /\
  ghost_db_ w' = (if in_small "B" w' then ghost_db_ w
                  else Backend.Put "B" "" (ghost_db_ w)) /\
  ghost_queue_items_ w' = (if in_small "B" w' then ghost_queue_items_ w
                           else wrap64 (ghost_queue_items_ w + 1)) /\
  main_queue_items_ w' = wrap64 (wrap64 (main_queue_items_ w + 1) - 1) /\
  (0 <= main_queue_items_ w ->
   main_queue_items_ w * getAverageValueSize <= main_size_ (config w) ->
   main_size_ (config w) + getAverageValueSize < 2 ^ 64 ->
   main_queue_items_ w' = main_queue_items_ w).
Proof.
  split; [intros n; reflexivity|].
  intros w w'.
  split; [reflexivity|]. split; [reflexivity|].
  apply (put_runs_one_eviction_step quiet "C" "c" w "B" "b" (fun n => eq_refl));
    reflexivity.
Defined.

(** ** Budgets *)

(** C5, as claimed, fails: two ghost hits put two entries into a small
    queue with a budget of one value, next to a ghost queue of two. *)
Lemma small_and_ghost_outgrow_budgets :
  ~ within_budgets
      (run quiet [op_put "X" "x1"; op_put "Y" "y1"; op_put "X" "x2";
                  op_get "X"; op_put "Y" "y2"; op_get "Y"]
         (fresh two_values)).
Proof.
  intros (Hsmall & _ & _). vm_compute in Hsmall. now apply Hsmall.
Qed.

Lemma put_main_invariant env key value w :
  fault_free env ->
  main_size_ (config w) + getAverageValueSize < 2 ^ 64 ->
  main_invariant w -> main_invariant (snd (put env key value w)).
Proof.
  intros Hff Hsz (Htr & Hlen & Hbud).
  destruct (put_frame env key value w) as (Hcfg & Htr' & _).
  destruct (put_effect env Hff key value w) as (_ & _ & Hrest).
  unfold main_invariant. rewrite Hcfg, Htr'. split; [assumption|].
  unfold Backend.items, getAverageValueSize in *.
  pose proof (length_Put key value (main_db_ w)) as HlenP.
  assert (Hc1 : wrap64 (main_queue_items_ w + 1) = main_queue_items_ w + 1)
    by (apply wrap64_small; lia).
  rewrite Hc1 in Hrest.
  rewrite (wrap64_small ((main_queue_items_ w + 1) * 4096)) in Hrest by lia.
  destruct (Z.ltb_spec (main_size_ (config w))
              ((main_queue_items_ w + 1) * 4096)) as [Hover|Hfits].
  - destruct (SeekToFirst_Put key value (main_db_ w)) as (k_old & v_old & Hfirst).
    rewrite Hfirst in Hrest. destruct Hrest as (-> & -> & _).
    pose proof (length_Delete_contained k_old _
                  (SeekToFirst_contains _ _ _ Hfirst)) as HlenD.
    rewrite wrap64_small by lia. lia.
  - destruct Hrest as (-> & -> & _). lia.
Qed.

Lemma get_main_invariant env key w :
  fault_free env ->
  main_size_ (config w) + getAverageValueSize < 2 ^ 64 ->
  main_invariant w -> main_invariant (snd (get env key w)).
Proof.
  intros Hff Hsz (Htr & Hlen & Hbud).
  destruct (get_frame env key w) as (Hcfg & Htr' & _).
  unfold main_invariant. rewrite Hcfg, Htr'. split; [assumption|].
  unfold Backend.items, getAverageValueSize in *.
  destruct (get_effect env Hff key w)
    as [(_ & -> & _ & ->)
       |[(v & i & _ & Hi & _)|(v & _ & HM & _ & -> & _ & ->)]].
  - lia.
  - rewrite Htr in Hi. now rewrite lookup_empty in Hi.
  - pose proof (length_Delete_contained key _ (contains_Get _ _ _ HM)) as HlenD.
    rewrite wrap64_small by lia. lia.
Qed.

(** C5, amended: when no backend call fails (and the budget test of
    [put] cannot wrap around), the main queue is within its budget
    after every operation of every run from a new cache, by its number
    of entries and by its item counter.  Nothing in [put] or [get]
    bounds the small or the ghost queue. *)
Theorem main_queue_within_budget env cfg ops :
  fault_free env ->
  0 <= main_size_ cfg ->
  main_size_ cfg + getAverageValueSize < 2 ^ 64 ->
  main_within_budget (run env ops (fresh cfg)).
Proof.
  intros Hff H0 Hsz.
  enough (Hinv : main_invariant (run env ops (fresh cfg))
                 /\ config (run env ops (fresh cfg)) = cfg).
  { destruct Hinv as ((_ & Hlen & Hbud) & Hcfg). unfold main_within_budget.
    rewrite Hcfg in *. unfold getAverageValueSize in *. split; lia. }
  apply (run_invariant env (fun w => main_invariant w /\ config w = cfg)).
  - intros op w (Hinv & Hcfg). split.
    + destruct op as [key value|key]; simpl.
      * apply put_main_invariant; [assumption|now rewrite Hcfg|assumption].
      * apply get_main_invariant; [assumption|now rewrite Hcfg|assumption].
    + rewrite <- Hcfg. apply step_frame.
  - split; [|reflexivity]. unfold main_invariant, getAverageValueSize. simpl.
    repeat split; [reflexivity|lia].
Qed.

(** The theorem at a run of three [put]s in the cache of two values. *)
Lemma main_queue_within_budget_witness :
  fault_free quiet /\ 0 <= main_size_ two_values /\
  main_size_ two_values + getAverageValueSize < 2 ^ 64 /\
  main_within_budget
    (run quiet [op_put "A" "a"; op_put "B" "b"; op_put "C" "c"]
       (fresh two_values)).
Proof.
  split; [intros n; reflexivity|].
  split; [discriminate|]. split; [reflexivity|].
  apply (main_queue_within_budget quiet two_values _ (fun n => eq_refl));
    [discriminate|reflexivity].
Defined.

(** ** Round trip *)

(** After [put key value], each of the two queues that holds [key]
    holds it with [value]. *)
Lemma put_writes_value env key value w :
  fault_free env ->
  let w' := snd (put env key value w) in
  (in_small key w = true -> Backend.Get key (small_db_ w') = Some value) /\
  (in_small key w = false -> small_db_ w' = small_db_ w) /\
  (in_main key w' = true -> Backend.Get key (main_db_ w') = Some value).
Proof.
  intros Hff w'.
  destruct (put_effect env Hff key value w) as (_ & HS1 & Hrest).
  fold w' in HS1, Hrest. unfold in_main. rewrite HS1.
  split; [|split].
  - intros ->. apply Get_Put_same.
  - now intros ->.
  - assert (Hcases : main_db_ w' = Backend.Put key value (main_db_ w) \/
                     exists k_old, main_db_ w' =
                       Backend.Delete k_old (Backend.Put key value (main_db_ w))).
    { destruct (_ <? _) in Hrest.
      - destruct (Backend.SeekToFirst _) as [[k_old v_old]|].
        + right. exists k_old. apply Hrest.
        + now left.
      - left. apply Hrest. }
    destruct Hcases as [->|(k_old & ->)]; intros Hin.
    + apply Get_Put_same.
    + destruct (String.eqb_spec k_old key) as [->|Hne].
      * now rewrite contains_Delete_same in Hin.
      * rewrite Get_Delete_other by assumption. apply Get_Put_same.
Qed.

Lemma put_then_get env key value w :
  fault_free env ->
  resident key (snd (put env key value w)) = true ->
  fst (get env key (snd (put env key value w))) = (OK, Some value).
Proof.
  intros Hff Hres.
  destruct (put_writes_value env key value w Hff) as (HS & HS' & HM).
  rewrite (get_result env Hff). unfold resident in Hres.
  destruct (in_small key w) eqn:Hin.
  - now rewrite HS.
  - rewrite HS' by reflexivity.
    unfold in_small in Hin, Hres at 1. rewrite HS' in Hres by reflexivity.
    rewrite Hin in Hres. simpl in Hres.
    rewrite (contains_false_Get _ _ Hin). now rewrite HM.
Qed.

(** C6: when no backend call fails, [put key value] returns OK, and a
    [get key] that follows returns [value] with OK as long as [key] is
    still in the small or the main queue; so after two [put]s the
    second value is read; and a key that was in the small queue when it
    was overwritten is read back in any case. *)
Theorem put_get_round_trip env :
  fault_free env ->
  (forall key value w,
      fst (put env key value w) = OK /\
      (resident key (snd (put env key value w)) = true ->
       fst (get env key (snd (put env key value w))) = (OK, Some value)))
  /\ (forall key v1 v2 w,
        let w2 := snd (put env key v2 (snd (put env key v1 w))) in
        resident key w2 = true ->
        fst (get env key w2) = (OK, Some v2))
  /\ (forall key value w,
        in_small key w = true ->
        fst (get env key (snd (put env key value w))) = (OK, Some value)).
Proof.
  intros Hff. split; [|split].
  - intros key value w. split.
    + apply (put_effect env Hff key value w).
    + now apply put_then_get.
  - intros key v1 v2 w w2. now apply put_then_get.
  - intros key value w Hin. apply put_then_get; [assumption|].
    destruct (put_writes_value env key value w Hff) as (HS & _).
    unfold resident, in_small at 1.
    now rewrite (contains_Get _ _ _ (HS Hin)).
Qed.

(** The condition matters: in a main queue with a budget of one value
    the second [put] counts "K" a second time and evicts it. *)
Example overwrite_can_evict_the_key :
  fst (get quiet "K"
         (snd (put quiet "K" "v2" (snd (put quiet "K" "v1" (fresh two_values))))))
  = (NotFound, None).
Proof. reflexivity. Qed.

(** The overwrite in a cache whose main queue takes nine values. *)
Lemma put_get_round_trip_witness :
  fault_free quiet /\
  fst (get quiet "K"
         (snd (put quiet "K" "v2" (snd (put quiet "K" "v1" (fresh ten_values))))))
  = (OK, Some "v2").
Proof.
  split; [intros n; reflexivity|].
  apply (proj1 (proj2 (put_get_round_trip quiet (fun n => eq_refl)))).
  reflexivity.
Defined.

(** ** Construction *)

(** C7, as claimed, fails: with [small_ratio = 1.0], outside (0, 1),
    the constructor returns an object (whose main queue has a budget of
    zero bytes). *)
Lemma ctor_accepts_ratio_out_of_range :
  ratios_in_range Double.one Double.lit_0_1 = false /\
  exists w,
    S3FIFORocksDB_ctor clean_host 40960 Double.one Double.lit_0_1
    = Constructed w /\
    small_size_ (config w) = 40960 /\ main_size_ (config w) = 0.
Proof.
  split; [reflexivity|]. eexists. split; [reflexivity|]. split; reflexivity.
Qed.

(** C7, amended: the constructor does not look at the ratios beyond
    deriving the three sizes from them.  Whenever the sizes convert, it
    returns an object exactly when the directories can be created and
    the three stores open, and throws otherwise. *)
Theorem ctor_fatal_only_on_host_failure host total_size small_ratio ghost_ratio cfg :
  derive_sizes total_size small_ratio ghost_ratio = Some cfg ->
  ((exists w, S3FIFORocksDB_ctor host total_size small_ratio ghost_ratio
              = Constructed w /\ config w = cfg)
   <-> (create_directories_ok host = true /\
        forall q, ok (fst (Open host q)) = true))
  /\ ((exists e, S3FIFORocksDB_ctor host total_size small_ratio ghost_ratio
                 = Thrown e)
      <-> (create_directories_ok host = false \/
           exists q, ok (fst (Open host q)) = false)).
Proof.
  intros Hsizes. unfold S3FIFORocksDB_ctor. rewrite Hsizes.
  destruct (create_directories_ok host); simpl.
  2:{ split; split.
      - intros (w & [=] & _).
      - intros ([=] & _).
      - now left.
      - intros _. now eexists. }
  destruct (Open host Small) as [s1 d1] eqn:H1.
  destruct (Open host Main) as [s2 d2] eqn:H2.
  destruct (Open host Ghost) as [s3 d3] eqn:H3.
  assert (Hall : (forall q, ok (fst (Open host q)) = true) <->
                 ok s1 = true /\ ok s2 = true /\ ok s3 = true).
  { split.
    - intros H. pose proof (H Small) as Ha. pose proof (H Main) as Hb.
      pose proof (H Ghost) as Hc. rewrite H1 in Ha. rewrite H2 in Hb.
      rewrite H3 in Hc. auto.
    - intros (Ha & Hb & Hc) [| |]; [rewrite H1|rewrite H2|rewrite H3];
        assumption. }
  assert (Hsome : (exists q, ok (fst (Open host q)) = false) <->
                  ok s1 = false \/ ok s2 = false \/ ok s3 = false).
  { split.
    - intros ([| |] & Hq); [rewrite H1 in Hq|rewrite H2 in Hq|rewrite H3 in Hq];
        auto.
    - intros [H|[H|H]];
        [exists Small; rewrite H1|exists Main; rewrite H2
        |exists Ghost; rewrite H3]; assumption. }
  rewrite Hall, Hsome.
  destruct (ok s1), (ok s2), (ok s3); simpl;
    (split; split;
     [ intros (w & Hw & _); try discriminate Hw; auto
     | intros (_ & Ha & Hb & Hc); try done; eexists; split; reflexivity
     | intros (e & He); try discriminate He; auto
     | intros [Hd|[Ha|[Hb|Hc]]]; try done; eexists; reflexivity ]).
Qed.

(** The theorem on a clean host, with [small_ratio = 1.0]. *)
Lemma ctor_fatal_only_on_host_failure_witness :
  derive_sizes 40960 Double.one Double.lit_0_1
  = Some (mkConfig 40960 Double.one Double.lit_0_1 40960 0 4096) /\
  exists w, S3FIFORocksDB_ctor clean_host 40960 Double.one Double.lit_0_1
            = Constructed w.
Proof.
  split; [reflexivity|].
  destruct (proj2 (proj1 (ctor_fatal_only_on_host_failure clean_host 40960
                     Double.one Double.lit_0_1 _ eq_refl)))
    as (w & Hw & _).
  - split; [reflexivity|]. intros q. reflexivity.
  - now exists w.
Defined.

(** ** Quick demotion *)

(** The failing input of C8, evaluated: "X" sits in the small queue
    with no access counted, and the [get] that hits it there leaves it
    in the small queue and out of the main queue. *)
Lemma untracked_key_is_not_demoted :
  let w := run quiet [op_put "X" "x1"; op_put "Y" "y1"; op_put "X" "x2";
                      op_get "X"] (fresh two_values) in
  in_small "X" w = true /\
  access_tracker_ w !! "X" = None /\
  access_count_of "X" w < MIN_ACCESS_COUNT /\
  fst (get quiet "X" w) = (OK, Some "x2") /\
  in_small "X" (snd (get quiet "X" w)) = true /\
  in_main "X" (snd (get quiet "X" w)) = false.
Proof. vm_compute. repeat split. Qed.

(** A key without an entry in the tracker is not considered: the [get]
    leaves both queues as they are. *)
Lemma untracked_key_stays env key value w :
  fault_free env ->
  Backend.Get key (small_db_ w) = Some value ->
  access_tracker_ w !! key = None ->
  small_db_ (snd (get env key w)) = small_db_ w /\
  main_db_ (snd (get env key w)) = main_db_ w.
Proof.
  intros Hff HS Htr.
  exec_ff Hff; rewrite ?HS, ?Htr in *; simplify_eq. now split.
Qed.

(** What quick demotion does for a key that has a tracker entry (no
    state that [put] and [get] reach has one): when no backend call
    fails and the age of the entry (the logical clock after its
    increment, minus [last_access]) exceeds 10000 or its count (as
    [uint32_t]) is below [MIN_ACCESS_COUNT] = 2, the [get] that hits
    [key] in the small queue writes it to the main queue and deletes it
    from the small queue, and returns the value with OK. *)
Theorem quick_demotion_of_tracked_key env key value info_ w :
  fault_free env ->
  Backend.Get key (small_db_ w) = Some value ->
  access_tracker_ w !! key = Some info_ ->
  10000 < wrap64 (wrap64 (access_count_ w + 1) - last_access info_) \/
  to_uint32 (count info_) < MIN_ACCESS_COUNT ->
  let w' := snd (get env key w) in
  fst (get env key w) = (OK, Some value) /\
  main_db_ w' = Backend.Put key value (main_db_ w) /\
  small_db_ w' = Backend.Delete key (small_db_ w) /\
  in_main key w' = true /\ in_small key w' = false.
Proof.
  intros Hff HS Htr Hcold w'.
  assert (Hb : (10000 <? wrap64 (wrap64 (access_count_ w + 1)
                                 - last_access info_))
               || (to_uint32 (count info_) <? MIN_ACCESS_COUNT) = true).
  { apply orb_true_iff.
    destruct Hcold as [H|H]; [left|right]; now apply Z.ltb_lt. }
  split.
  - rewrite (get_result env Hff). now rewrite HS.
  - subst w'. unfold in_main, in_small.
    exec_ff Hff; rewrite ?HS, ?Htr in *; simplify_eq.
    all: try (rewrite Hb in *; discriminate).
    now rewrite contains_Put_same, contains_Delete_same.
Qed.

(** The theorem at a tracked key that was never counted. *)
Lemma quick_demotion_of_tracked_key_witness :
  fault_free quiet /\
  let w := tracked_K 7 (mkAccessInfo 0 7) in
  Backend.Get "K" (small_db_ w) = Some "v" /\
  access_tracker_ w !! "K" = Some (mkAccessInfo 0 7) /\
  to_uint32 (count (mkAccessInfo 0 7)) < MIN_ACCESS_COUNT /\
  fst (get quiet "K" w) = (OK, Some "v") /\
  main_db_ (snd (get quiet "K" w)) = Backend.Put "K" "v" (main_db_ w) /\
  small_db_ (snd (get quiet "K" w)) = Backend.Delete "K" (small_db_ w) /\
  in_main "K" (snd (get quiet "K" w)) = true /\
  in_small "K" (snd (get quiet "K" w)) = false.
Proof.
  split; [intros n; reflexivity|].
  intros w. split; [reflexivity|]. split; [reflexivity|].
  split; [reflexivity|].
  apply (quick_demotion_of_tracked_key quiet "K" "v" (mkAccessInfo 0 7) w
           (fun n => eq_refl) eq_refl eq_refl).
  right. reflexivity.
Defined.

(** An entry last touched more than 10000 ticks ago is demoted
    whatever its count; a recent entry with two accesses stays. *)
Example old_key_is_demoted :
  in_small "K" (snd (get quiet "K" (tracked_K 20000 (mkAccessInfo 5 3)))) = false.
Proof. reflexivity. Qed.

Example warm_key_stays :
  in_small "K" (snd (get quiet "K" (tracked_K 20000 (mkAccessInfo 2 19000)))) = true.
Proof. reflexivity. Qed.

(** C8: quick demotion never fires.  In every state that [put] and
    [get] reach from a constructed cache, with no backend call failing,
    a key found in the small queue has no tracker entry and no access
    counted (0 < [MIN_ACCESS_COUNT]), and the [get] that hits it there
    returns its value and leaves it in the small queue, with both
    queues as they were: nothing is written to the main queue. *)
Theorem cold_small_key_is_never_demoted
  env cfg small main ghost ops key value :
  fault_free env ->
  let w := run env ops (opened cfg small main ghost) in
  Backend.Get key (small_db_ w) = Some value ->
  access_tracker_ w !! key = None /\
  access_count_of key w < MIN_ACCESS_COUNT /\
  fst (get env key w) = (OK, Some value) /\
  small_db_ (snd (get env key w)) = small_db_ w /\
  main_db_ (snd (get env key w)) = main_db_ w /\
  in_small key (snd (get env key w)) = true.
Proof.
  intros Hff w HS.
  assert (Htr : access_tracker_ w !! key = None).
  { subst w. rewrite run_access_tracker. apply lookup_empty. }
  destruct (untracked_key_stays env key value w Hff HS Htr) as (HS' & HM').
  split; [assumption|]. split.
  { subst w. rewrite run_access_count_of. reflexivity. }
  split; [rewrite (get_result env Hff); now rewrite HS|].
  split; [assumption|]. split; [assumption|].
  unfold in_small. rewrite HS'. now apply (contains_Get _ _ value).
Qed.

(** The theorem at "X", promoted by a ghost hit and read again. *)
Lemma cold_small_key_is_never_demoted_witness :
  fault_free quiet /\
  let w := run quiet [op_put "X" "x1"; op_put "Y" "y1"; op_put "X" "x2";
                      op_get "X"] (fresh two_values) in
  Backend.Get "X" (small_db_ w) = Some "x2" /\
  access_count_of "X" w < MIN_ACCESS_COUNT /\
  fst (get quiet "X" w) = (OK, Some "x2") /\
  in_small "X" (snd (get quiet "X" w)) = true /\
  main_db_ (snd (get quiet "X" w)) = [].
Proof.
  split; [intros n; reflexivity|].
  intros w. split; [reflexivity|].
  destruct (cold_small_key_is_never_demoted quiet two_values [] [] []
              [op_put "X" "x1"; op_put "Y" "y1"; op_put "X" "x2"; op_get "X"]
              "X" "x2" (fun n => eq_refl) eq_refl)
    as (_ & H1 & H2 & _ & H3 & H4).
  split; [exact H1|]. split; [exact H2|]. split; [exact H4|exact H3].
Defined.

(** ** Failed promotion *)

(** The private [promoteToSmall] keeps the key in the main queue when
    the write to the small queue fails, and logs the failure. *)
Lemma promoteToSmall_failed_put_keeps_main env key value w :
  io_fault env (backend_calls w) = true ->
  let w' := snd (promoteToSmall env key value w) in
  small_db_ w' = small_db_ w /\ main_db_ w' = main_db_ w /\
  small_queue_items_ w' = small_queue_items_ w /\
  main_queue_items_ w' = main_queue_items_ w /\
  logger_ w' = (logger_ w ++ [(error, FailedToPromote key IOError)])%list.
Proof.
  intros Hfail. unfold_members; simpl. rewrite Hfail. simpl. repeat split.
Qed.

(** C9: the public [get] does not look at the status of its write to
    the small queue.  When that write fails on a ghost hit, and the
    delete that follows succeeds, the key leaves the main queue without
    entering the small queue; [get] still returns the value with OK,
    counts the key as moved, and logs the promotion as done, nothing at
    level [error]. *)
Theorem failed_promotion_drops_key env key value w :
  io_fault env (backend_calls w) = false ->
  io_fault env (S (backend_calls w)) = false ->
  io_fault env (S (S (backend_calls w))) = false ->
  io_fault env (S (S (S (backend_calls w)))) = true ->
  io_fault env (S (S (S (S (backend_calls w))))) = false ->
  Backend.Get key (small_db_ w) = None ->
  Backend.Get key (main_db_ w) = Some value ->
  in_ghost key w = true ->
  let w' := snd (get env key w) in
  fst (get env key w) = (OK, Some value) /\
  in_small key w' = false /\ in_main key w' = false /\
  small_queue_items_ w' = wrap64 (small_queue_items_ w + 1) /\
  main_queue_items_ w' = wrap64 (main_queue_items_ w - 1) /\
  logger_ w' = (logger_ w ++ [(debug, GetRequestFor key);
                              (debug, MainQueueHit key);
                              (info, GhostHitPromotingDirectly key);
                              (info, PromotedFromMainToSmall key)])%list.
Proof.
  intros H0 H1 H2 H3 H4 HS HM HG. unfold in_small, in_main, in_ghost in *.
  unfold Backend.contains in HG |- *.
  unfold_members; simpl. rewrite H0; simpl. rewrite HS; simpl.
  rewrite H1; simpl. rewrite HM; simpl. rewrite H2; simpl.
  destruct (Backend.Get key (ghost_db_ w)); [simpl|discriminate].
  rewrite H3; simpl. rewrite H4; simpl.
  rewrite HS, Get_Delete_same, <- !app_assoc. repeat split.
Qed.

(** The theorem at the ghost hit on "X", when the 16th backend call
    of the run, the write to the small queue, fails. *)
Lemma failed_promotion_drops_key_witness :
  let env := failing_at 15 in
  let w := run env [op_put "X" "x1"; op_put "Y" "y1"; op_put "X" "x2"]
             (fresh two_values) in
  (main_db_ w = [("X", "x2")] /\ ghost_db_ w = [("X", ""); ("Y", "")] /\
   backend_calls w = 12%nat) /\
  fst (get env "X" w) = (OK, Some "x2") /\
  in_small "X" (snd (get env "X" w)) = false /\
  in_main "X" (snd (get env "X" w)) = false /\
  small_queue_items_ (snd (get env "X" w)) = wrap64 (small_queue_items_ w + 1) /\
  main_queue_items_ (snd (get env "X" w)) = wrap64 (main_queue_items_ w - 1) /\
  logger_ (snd (get env "X" w))
  = (logger_ w ++ [(debug, GetRequestFor "X"); (debug, MainQueueHit "X");
                   (info, GhostHitPromotingDirectly "X");
                   (info, PromotedFromMainToSmall "X")])%list.
Proof.
  intros env w. split; [repeat split|].
  apply (failed_promotion_drops_key env "X" "x2" w); reflexivity.
Defined.

(** ** Statistics *)









Example four_values_derived :
  derive_sizes 16384 lit_0_5 lit_0_5 = Some four_values.
Proof. reflexivity. Qed.




(** * Further properties of the public operations *)

Lemma contains_Put_mono key k value db :
  Backend.contains k db = true ->
  Backend.contains k (Backend.Put key value db) = true.
Proof.
  intros Hin. destruct (String.eqb_spec key k) as [<-|Hne].
  - apply contains_Put_same.
  - now rewrite contains_Put_other.
Qed.

Lemma contains_nil key : Backend.contains key [] = false.
Proof. reflexivity. Qed.

(** A hit in the small queue returns the small queue's value, whatever
    the calls after the first one do. *)
Lemma get_small_hit_returns env key value w :
  io_fault env (backend_calls w) = false ->
  Backend.Get key (small_db_ w) = Some value ->
  fst (get env key w) = (OK, Some value).
Proof.
  intros H0 HS. unfold_members; simpl. rewrite H0; simpl. rewrite HS; simpl.
  repeat (case_split; simpl); reflexivity.
Qed.

(** ** Misses *)

(** X1: a [get] of a key that is in neither the small nor the main
    queue returns NotFound and inserts nothing: stores, counters and
    access bookkeeping stay as they are, whether or not backend calls
    fail. *)
Theorem get_miss_changes_nothing env key w :
  resident key w = false ->
  let w' := snd (get env key w) in
  fst (get env key w) = (NotFound, None) /\
  small_db_ w' = small_db_ w /\ main_db_ w' = main_db_ w /\
  ghost_db_ w' = ghost_db_ w /\
  small_queue_items_ w' = small_queue_items_ w /\
  main_queue_items_ w' = main_queue_items_ w /\
  ghost_queue_items_ w' = ghost_queue_items_ w /\
  access_counts_ w' = access_counts_ w /\
  access_tracker_ w' = access_tracker_ w /\
  access_count_ w' = access_count_ w.
Proof.
  intros Hres. apply orb_false_iff in Hres as [HS HM].
  apply contains_false_Get in HS, HM.
  exec; rewrite ?HS, ?HM in *; simplify_eq; repeat split.
Qed.

(** The theorem at a key that was never written. *)
Lemma get_miss_changes_nothing_witness :
  let w := run quiet [op_put "A" "a"] (fresh two_values) in
  resident "nonexistent" w = false /\
  fst (get quiet "nonexistent" w) = (NotFound, None) /\
  main_db_ (snd (get quiet "nonexistent" w)) = main_db_ w.
Proof.
  intros w. split; [reflexivity|].
  destruct (get_miss_changes_nothing quiet "nonexistent" w eq_refl)
    as (H1 & _ & H2 & _).
  split; [exact H1|exact H2].
Defined.

(** ** What a [get] leaves to later readers *)

(** X2: when no backend call fails, a [get] changes the answer of no
    later [get]: for every key, the status and the value read after it
    are those read before it, whether the first [get] missed, hit,
    promoted or demoted. *)
Theorem get_preserves_answers env key k w :
  fault_free env ->
  fst (get env k (snd (get env key w))) = fst (get env k w).
Proof.
  intros Hff. rewrite !(get_result env Hff).
  destruct (get_effect env Hff key w)
    as [(-> & -> & _)
       |[(v & i & HS & _ & -> & -> & _)|(v & HS & HM & -> & -> & _)]].
  - reflexivity.
  - destruct (String.eqb_spec key k) as [<-|Hne].
    + now rewrite Get_Delete_same, Get_Put_same, HS.
    + now rewrite Get_Delete_other, Get_Put_other.
  - destruct (String.eqb_spec key k) as [<-|Hne].
    + now rewrite Get_Put_same, HS, HM.
    + now rewrite Get_Delete_other, Get_Put_other.
Qed.

(** The theorem at the ghost hit that promotes "X". *)
Lemma get_preserves_answers_witness :
  fault_free quiet /\
  let w := run quiet [op_put "X" "x1"; op_put "Y" "y1"; op_put "X" "x2"]
             (fresh two_values) in
  in_main "X" w = true /\ in_small "X" (snd (get quiet "X" w)) = true /\
  fst (get quiet "X" (snd (get quiet "X" w))) = fst (get quiet "X" w).
Proof.
  split; [intros n; reflexivity|].
  intros w. split; [reflexivity|]. split; [reflexivity|].
  exact (get_preserves_answers quiet "X" "X" w (fun n => eq_refl)).
Defined.

(** ** Failed writes *)

(** X3: when the write to the main queue fails, [put] returns that
    status and has changed no store and no counter. *)
Theorem put_failed_admission env key value w :
  io_fault env (backend_calls w) = true ->
  let w' := snd (put env key value w) in
  fst (put env key value w) = IOError /\
  small_db_ w' = small_db_ w /\ main_db_ w' = main_db_ w /\
  ghost_db_ w' = ghost_db_ w /\
  small_queue_items_ w' = small_queue_items_ w /\
  main_queue_items_ w' = main_queue_items_ w /\
  ghost_queue_items_ w' = ghost_queue_items_ w.
Proof.
  intros Hfail. unfold_members; simpl. rewrite Hfail; simpl. repeat split.
Qed.

(** The theorem at the first [put] on a new cache. *)
Lemma put_failed_admission_witness :
  io_fault (failing_at 0) (backend_calls (fresh two_values)) = true /\
  fst (put (failing_at 0) "A" "a" (fresh two_values)) = IOError /\
  main_db_ (snd (put (failing_at 0) "A" "a" (fresh two_values))) = [].
Proof.
  split; [reflexivity|].
  destruct (put_failed_admission (failing_at 0) "A" "a" (fresh two_values)
              eq_refl) as (H1 & _ & H2 & _).
  split; [exact H1|exact H2].
Defined.

(** X4: when [put] has written the main queue and its update of the
    small queue's copy fails, it returns the failure and the small
    queue keeps the old value.  The main queue holds the new value
    unless the eviction step of this same [put] takes the key: it does
    whenever the step does not run or takes another key, and whenever
    the key is still in the main queue afterwards.  Since [get] reads
    the small queue first, the next [get] whose first read succeeds
    returns the old value. *)
Theorem put_failed_update_leaves_stale_copy env key value old w :
  io_fault env (backend_calls w) = false ->
  io_fault env (S (backend_calls w)) = false ->
  io_fault env (S (S (backend_calls w))) = true ->
  Backend.Get key (small_db_ w) = Some old ->
  let w' := snd (put env key value w) in
  fst (put env key value w) = IOError /\
  Backend.Get key (small_db_ w') = Some old /\
  (evicted_by_put key value w <> Some key ->
   Backend.Get key (main_db_ w') = Some value) /\
  (in_main key w' = true -> Backend.Get key (main_db_ w') = Some value) /\
  (io_fault env (backend_calls w') = false ->
   fst (get env key w') = (OK, Some old)).
Proof.
  intros H0 H1 H2 HS w'.
  assert (Hput : fst (put env key value w) = IOError /\
                 small_db_ w' = small_db_ w /\
                 (main_db_ w' = Backend.Put key value (main_db_ w) \/
                  exists k_old,
                    evicted_by_put key value w = Some k_old /\
                    main_db_ w' =
                    Backend.Delete k_old (Backend.Put key value (main_db_ w)))).
  { subst w'. unfold evicted_by_put. unfold_members; simpl.
    rewrite H0; simpl. rewrite H1; simpl.
    rewrite HS; simpl. rewrite H2; simpl.
    repeat (case_split; simpl); simplify_eq; repeat split; eauto. }
  destruct Hput as (Hst & HS' & HM').
  assert (HSold : Backend.Get key (small_db_ w') = Some old)
    by now rewrite HS'.
  split; [assumption|]. split; [assumption|]. split; [|split].
  - intros Hev. destruct HM' as [->|(k_old & Hk & ->)].
    + apply Get_Put_same.
    + rewrite Get_Delete_other by congruence. apply Get_Put_same.
  - unfold in_main. destruct HM' as [->|(k_old & _ & ->)]; intros Hin.
    + apply Get_Put_same.
    + destruct (String.eqb_spec k_old key) as [->|Hne].
      * now rewrite contains_Delete_same in Hin.
      * rewrite Get_Delete_other by assumption. apply Get_Put_same.
  - intros Hnext. now apply get_small_hit_returns.
Qed.

(** The theorem at an overwrite of "K" whose third backend call, the
    write to the small queue, fails. *)
Lemma put_failed_update_leaves_stale_copy_witness :
  let env := failing_at 2 in
  let w' := snd (put env "K" "new" K_in_both) in
  Backend.Get "K" (small_db_ K_in_both) = Some "old" /\
  evicted_by_put "K" "new" K_in_both = None /\
  fst (put env "K" "new" K_in_both) = IOError /\
  Backend.Get "K" (main_db_ w') = Some "new" /\
  fst (get env "K" w') = (OK, Some "old").
Proof.
  intros env w'. split; [reflexivity|]. split; [reflexivity|].
  destruct (put_failed_update_leaves_stale_copy env "K" "new" "old" K_in_both
              eq_refl eq_refl eq_refl eq_refl) as (H1 & _ & H2 & _ & H3).
  split; [exact H1|]. split; [apply H2; discriminate|exact (H3 eq_refl)].
Defined.

(** ** Other keys *)

(** X5: when no backend call fails, [put key value] changes nothing
    under any other key [k] in the small queue, and in the main queue
    it at most removes [k], exactly when [k] is the key its eviction
    step takes. *)
Theorem put_leaves_other_keys env key value k w :
  fault_free env ->
  k <> key ->
  let w' := snd (put env key value w) in
  Backend.Get k (small_db_ w') = Backend.Get k (small_db_ w) /\
  (evicted_by_put key value w <> Some k ->
   Backend.Get k (main_db_ w') = Backend.Get k (main_db_ w)) /\
  (evicted_by_put key value w = Some k ->
   Backend.Get k (main_db_ w') = None).
Proof.
  intros Hff Hne w'.
  destruct (put_effect env Hff key value w) as (_ & HS1 & Hrest).
  fold w' in HS1, Hrest. unfold evicted_by_put. rewrite HS1. split.
  - destruct (in_small key w); [|reflexivity].
    now rewrite Get_Put_other by congruence.
  - destruct (_ <? _) in Hrest |- *.
    + destruct (Backend.SeekToFirst _) as [[k_old v_old]|]; simpl.
      * destruct Hrest as (-> & _). split.
        -- intros Hev. rewrite Get_Delete_other by congruence.
           now rewrite Get_Put_other by congruence.
        -- intros [= ->]. apply Get_Delete_same.
      * rewrite Hrest. split; [|discriminate].
        intros _. now rewrite Get_Put_other by congruence.
    + destruct Hrest as (-> & _). split; [|discriminate].
      intros _. now rewrite Get_Put_other by congruence.
Qed.

(** The theorem at the [put] of "C" that evicts "B". *)
Lemma put_leaves_other_keys_witness :
  fault_free quiet /\
  let w := run quiet [op_put "A" "a"; op_put "B" "b"] (fresh two_values) in
  evicted_by_put "C" "c" w = Some "B" /\
  Backend.Get "B" (main_db_ (snd (put quiet "C" "c" w))) = None.
Proof.
  split; [intros n; reflexivity|].
  intros w. split; [reflexivity|].
  destruct (put_leaves_other_keys quiet "C" "c" "B" w (fun n => eq_refl))
    as (_ & _ & H).
  - discriminate.
  - exact (H eq_refl).
Defined.

(** ** Promotion *)

(** Without a ghost entry and with at most one access counted, a [get]
    that does not hit the small queue moves nothing. *)
Lemma get_without_promotion env key w :
  fault_free env ->
  Backend.Get key (small_db_ w) = None ->
  in_ghost key w = false ->
  access_count_of key w <= 1 ->
  let w' := snd (get env key w) in
  small_db_ w' = small_db_ w /\ main_db_ w' = main_db_ w /\
  small_queue_items_ w' = small_queue_items_ w /\
  main_queue_items_ w' = main_queue_items_ w /\
  rand_calls w' = rand_calls w.
Proof.
  intros Hff HS HG Hc. unfold in_ghost in HG.
  apply contains_false_Get in HG. unfold access_count_of in Hc.
  exec_ff Hff; rewrite ?HS, ?HG in *; simplify_eq.
  all: try (repeat split; reflexivity).
  all: simpl in Hc.
  all: match goal with
       | H : (1 <? _) = true |- _ => apply Z.ltb_lt in H
       end; lia.
Qed.

(** X6: when no backend call fails, a hit in the main queue on a key
    that is not in the ghost queue and has at most one access counted
    promotes nothing: both queues and their counters stay as they are,
    and no random number is drawn. *)
Theorem cold_main_hit_is_not_promoted env key value w :
  fault_free env ->
  Backend.Get key (small_db_ w) = None ->
  Backend.Get key (main_db_ w) = Some value ->
  in_ghost key w = false ->
  access_count_of key w <= 1 ->
  let w' := snd (get env key w) in
  fst (get env key w) = (OK, Some value) /\
  small_db_ w' = small_db_ w /\ main_db_ w' = main_db_ w /\
  small_queue_items_ w' = small_queue_items_ w /\
  main_queue_items_ w' = main_queue_items_ w /\
  rand_calls w' = rand_calls w.
Proof.
  intros Hff HS HM HG Hc w'. split.
  - rewrite (get_result env Hff). now rewrite HS, HM.
  - now apply get_without_promotion.
Qed.

(** The theorem at the first [get] after a [put]. *)
Lemma cold_main_hit_is_not_promoted_witness :
  fault_free quiet /\
  let w := run quiet [op_put "A" "valueA"] (fresh ten_values) in
  fst (get quiet "A" w) = (OK, Some "valueA") /\
  small_db_ (snd (get quiet "A" w)) = small_db_ w /\
  main_db_ (snd (get quiet "A" w)) = main_db_ w.
Proof.
  split; [intros n; reflexivity|].
  intros w.
  destruct (cold_main_hit_is_not_promoted quiet "A" "valueA" w
              (fun n => eq_refl) eq_refl eq_refl eq_refl)
    as (H1 & H2 & H3 & _).
  - discriminate.
  - split; [exact H1|]. split; [exact H2|exact H3].
Defined.

(** X7: when no backend call fails, a hit in the main queue on a key
    that is not in the ghost queue and has more than one access counted
    draws exactly one random number, and moves the key to the small
    queue exactly when [rand() / RAND_MAX < 0.01] in [double]. *)
Theorem slow_promotion_follows_the_draw env key value w :
  fault_free env ->
  Backend.Get key (small_db_ w) = None ->
  Backend.Get key (main_db_ w) = Some value ->
  in_ghost key w = false ->
  1 < access_count_of key w ->
  let below :=
    Double.ltb (Double.div (Double.of_Z (rand_value env (rand_calls w)))
                           (Double.of_Z (RAND_MAX env)))
               Double.lit_0_01 in
  let w' := snd (get env key w) in
  fst (get env key w) = (OK, Some value) /\
  rand_calls w' = S (rand_calls w) /\
  in_small key w' = below /\ in_main key w' = negb below.
Proof.
  intros Hff HS HM HG Hc. unfold in_ghost in HG.
  apply contains_false_Get in HG. unfold access_count_of in Hc.
  unfold in_small, in_main.
  exec_ff Hff; rewrite ?HS, ?HM, ?HG in *; simplify_eq.
  all: simpl in Hc.
  all: repeat match goal with
       | H : (1 <? _) = false |- _ => apply Z.ltb_ge in H
       end; try lia.
  all: rewrite ?contains_Put_same, ?contains_Delete_same.
  all: try (repeat split; reflexivity).
  all: unfold Backend.contains;
    repeat match goal with
           | H : Backend.Get _ _ = _ |- _ => rewrite H; clear H
           end; repeat split.
Qed.

(** The theorem at a key with two accesses counted and a draw just
    below the threshold. *)
Lemma slow_promotion_follows_the_draw_witness :
  fault_free (drawing 21474836) /\
  1 < access_count_of "K" (counted_K 2) /\
  rand_calls (snd (get (drawing 21474836) "K" (counted_K 2))) = 1%nat /\
  in_small "K" (snd (get (drawing 21474836) "K" (counted_K 2))) = true /\
  in_main "K" (snd (get (drawing 21474836) "K" (counted_K 2))) = false.
Proof.
  split; [intros n; reflexivity|]. split; [reflexivity|].
  destruct (slow_promotion_follows_the_draw (drawing 21474836) "K" "v"
              (counted_K 2) (fun n => eq_refl) eq_refl eq_refl eq_refl
              eq_refl) as (_ & H1 & H2 & H3).
  split; [exact H1|]. split; [exact H2|exact H3].
Defined.

(** ** Below capacity *)

Lemma puts_nonneg ops : 0 <= puts ops.
Proof. induction ops as [|[key value|key] ops IH]; simpl; lia. Qed.

Lemma put_only_main env key value n w :
  fault_free env -> 0 <= n ->
  (n + 1) * getAverageValueSize <= main_size_ (config w) ->
  main_size_ (config w) < 2 ^ 64 ->
  only_main n w ->
  only_main (n + 1) (snd (put env key value w)) /\
  main_db_ (snd (put env key value w)) = Backend.Put key value (main_db_ w).
Proof.
  intros Hff Hn Hfit Hsz (HS & HG & Hc & Hcnt).
  destruct (put_effect env Hff key value w) as (_ & HS1 & Hrest).
  unfold getAverageValueSize in *. unfold in_small in HS1.
  rewrite HS, contains_nil in HS1. rewrite Hc in Hrest.
  rewrite (wrap64_small (n + 1)) in Hrest by lia.
  rewrite (wrap64_small ((n + 1) * 4096)) in Hrest by lia.
  destruct (Z.ltb_spec (main_size_ (config w)) ((n + 1) * 4096)); [lia|].
  destruct Hrest as (HM & Hc' & HG' & _).
  split; [|assumption]. unfold only_main. rewrite HS1, HG', HG, Hc'.
  repeat split. intros k. now rewrite put_access_count_of.
Qed.

Lemma get_only_main env key n w :
  fault_free env ->
  only_main n w ->
  only_main n (snd (get env key w)) /\
  main_db_ (snd (get env key w)) = main_db_ w.
Proof.
  intros Hff (HS & HG & Hc & Hcnt).
  assert (HSk : Backend.Get key (small_db_ w) = None) by now rewrite HS.
  assert (HGk : in_ghost key w = false)
    by (unfold in_ghost; now rewrite HG).
  destruct (get_frame env key w) as (_ & _ & HG' & _).
  destruct (get_without_promotion env key w Hff HSk HGk)
    as (HS' & HM' & _ & Hc' & _); [rewrite Hcnt; lia|].
  split; [|assumption]. unfold only_main. rewrite HS', HG', Hc'.
  repeat split; try assumption. intros k. now rewrite get_access_count_of.
Qed.

Lemma run_only_main env ops :
  fault_free env ->
  forall n w,
    0 <= n ->
    (n + puts ops) * getAverageValueSize <= main_size_ (config w) ->
    main_size_ (config w) < 2 ^ 64 ->
    only_main n w ->
    only_main (n + puts ops) (run env ops w) /\
    forall k, Backend.Get k (main_db_ (run env ops w))
              = written k ops (Backend.Get k (main_db_ w)).
Proof.
  intros Hff. unfold run, written.
  induction ops as [|[key value|key] ops IH]; intros n w Hn Hfit Hsz Hinv.
  - simpl. rewrite Z.add_0_r. now split.
  - cbn [fold_left puts step] in *.
    pose proof (puts_nonneg ops) as Hp. unfold getAverageValueSize in *.
    destruct (put_only_main env key value n w Hff Hn) as (Hinv' & HM');
      [unfold getAverageValueSize; lia|assumption|assumption|].
    destruct (put_frame env key value w) as (Hcfg & _).
    destruct (IH (n + 1) (snd (put env key value w))) as (Hfin & Hget);
      [lia|rewrite Hcfg; lia|now rewrite Hcfg|assumption|].
    replace (n + (1 + puts ops)) with (n + 1 + puts ops) by lia.
    split; [assumption|]. intros k. rewrite Hget, HM'. f_equal.
    destruct (String.eqb_spec key k) as [->|Hne].
    + apply Get_Put_same.
    + now apply Get_Put_other.
  - cbn [fold_left puts step] in *.
    destruct (get_only_main env key n w Hff Hinv) as (Hinv' & HM').
    destruct (get_frame env key w) as (Hcfg & _).
    destruct (IH n (snd (get env key w))) as (Hfin & Hget);
      [assumption|now rewrite Hcfg|now rewrite Hcfg|assumption|].
    split; [assumption|]. intros k. now rewrite Hget, HM'.
Qed.

(** X8: as long as the [put]s of a run fit the budget of the main queue
    ([puts * 4096 <= main_size_]) and no backend call fails, a new
    cache behaves as a plain map: nothing is evicted or promoted, the
    small and the ghost queue stay empty, the main counter is the
    number of [put]s, and [get] returns for every key the value last
    written under it, or NotFound when none was. *)
Theorem below_capacity_cache_is_a_map env cfg ops :
  fault_free env ->
  puts ops * getAverageValueSize <= main_size_ cfg ->
  main_size_ cfg < 2 ^ 64 ->
  let w := run env ops (fresh cfg) in
  small_db_ w = [] /\ ghost_db_ w = [] /\
  main_queue_items_ w = puts ops /\
  forall k,
    fst (get env k w) =
    match written k ops None with
    | Some value => (OK, Some value)
    | None => (NotFound, None)
    end.
Proof.
  intros Hff Hfit Hsz w.
  destruct (run_only_main env ops Hff 0 (fresh cfg))
    as ((HS & HG & Hc & _) & Hget);
    [lia|simpl; lia|assumption|now repeat split|].
  fold w in HS, HG, Hc, Hget. rewrite Z.add_0_l in Hc.
  repeat split; try assumption.
  intros k. rewrite (get_result env Hff), HS, Hget. reflexivity.
Qed.

(** The theorem at the paper example of the driver, with the driver's
    budgets: all eleven keys fit, so "K" and "A" are read back and "J"
    is not evicted. *)
Lemma below_capacity_cache_is_a_map_witness :
  fault_free quiet /\
  let ops := [op_put "A" "valueA"; op_put "B" "valueB"; op_put "C" "valueC";
              op_get "A"; op_put "D" "valueD"; op_put "E" "valueE";
              op_put "F" "valueF"; op_put "G" "valueG"; op_put "H" "valueH";
              op_put "I" "valueI"; op_put "J" "valueJ"; op_put "K" "valueK"] in
  let w := run quiet ops (fresh driver_values) in
  puts ops * getAverageValueSize <= main_size_ driver_values /\
  fst (get quiet "K" w) = (OK, Some "valueK") /\
  fst (get quiet "A" w) = (OK, Some "valueA") /\
  fst (get quiet "J" w) = (OK, Some "valueJ") /\
  fst (get quiet "Z" w) = (NotFound, None).
Proof.
  split; [intros n; reflexivity|].
  intros ops w. split; [discriminate|].
  destruct (below_capacity_cache_is_a_map quiet driver_values ops
              (fun n => eq_refl)) as (_ & _ & _ & H).
  - discriminate.
  - reflexivity.
  - split; [exact (H "K")|]. split; [exact (H "A")|].
    split; [exact (H "J")|exact (H "Z")].
Defined.

(** ** What never leaves *)

(** Whatever the backend does, [put] leaves the small queue as it is or
    overwrites [key] in it, and leaves the ghost queue as it is or
    writes one key to it. *)
Lemma put_shapes env key value w :
  let w' := snd (put env key value w) in
  (small_db_ w' = small_db_ w \/
   small_db_ w' = Backend.Put key value (small_db_ w)) /\
  (ghost_db_ w' = ghost_db_ w \/
   exists k_old, ghost_db_ w' = Backend.Put k_old "" (ghost_db_ w)).
Proof. exec; split; eauto. Qed.

(** With an empty tracker, [get] leaves the small queue as it is or
    writes [key] to it. *)
Lemma get_shapes env key w :
  access_tracker_ w = ∅ ->
  let w' := snd (get env key w) in
  small_db_ w' = small_db_ w \/
  exists value, small_db_ w' = Backend.Put key value (small_db_ w).
Proof.
  intros Htr. exec.
  all: try match goal with
           | H : access_tracker_ _ !! _ = Some _ |- _ =>
               rewrite Htr, lookup_empty in H; discriminate
           end.
  all: eauto.
Qed.

Lemma step_keeps_small_and_ghost env op k w :
  access_tracker_ w = ∅ ->
  (in_small k w = true -> in_small k (step env op w) = true) /\
  (in_ghost k w = true -> in_ghost k (step env op w) = true).
Proof.
  intros Htr. unfold in_small, in_ghost.
  destruct op as [key value|key]; simpl.
  - destruct (put_shapes env key value w) as ([->| ->] & [->|(k_old & ->)]);
      split; auto using contains_Put_mono.
  - destruct (get_frame env key w) as (_ & _ & -> & _).
    destruct (get_shapes env key w Htr) as [->|(value & ->)];
      split; auto using contains_Put_mono.
Qed.

Lemma run_keeps_small_and_ghost env ops k w :
  access_tracker_ w = ∅ ->
  (in_small k w = true -> in_small k (run env ops w) = true) /\
  (in_ghost k w = true -> in_ghost k (run env ops w) = true).
Proof.
  intros Htr.
  apply (run_invariant env
           (fun w' => access_tracker_ w' = ∅ /\
                      (in_small k w = true -> in_small k w' = true) /\
                      (in_ghost k w = true -> in_ghost k w' = true))).
  - intros op w' (Htr' & HS & HG).
    destruct (step_keeps_small_and_ghost env op k w' Htr') as (HS' & HG').
    destruct (step_frame env op w') as (_ & ->). auto.
  - auto.
Qed.

(** X9: in every run from a new cache, whether or not backend calls
    fail, no [put] and no [get] ever removes a key from the small queue
    or from the ghost queue: a key found there at some point of the run
    is there at every later point. *)
Theorem small_and_ghost_never_shrink env cfg ops1 ops2 k :
  let w1 := run env ops1 (fresh cfg) in
  let w2 := run env ops2 w1 in
  (in_small k w1 = true -> in_small k w2 = true) /\
  (in_ghost k w1 = true -> in_ghost k w2 = true).
Proof.
  intros w1 w2. apply run_keeps_small_and_ghost.
  subst w1. now rewrite run_access_tracker.
Qed.

(** X10: when no backend call fails, a key that has reached the small
    queue in a run from a new cache is found by every later [get],
    whatever is written in between. *)
Theorem promoted_key_is_always_found env cfg ops1 ops2 k :
  fault_free env ->
  let w1 := run env ops1 (fresh cfg) in
  in_small k w1 = true ->
  exists value, fst (get env k (run env ops2 w1)) = (OK, Some value).
Proof.
  intros Hff w1 Hin.
  assert (Htr : access_tracker_ w1 = ∅)
    by (subst w1; now rewrite run_access_tracker).
  destruct (run_keeps_small_and_ghost env ops2 k w1 Htr) as (HS & _).
  specialize (HS Hin). unfold in_small, Backend.contains in HS.
  rewrite (get_result env Hff).
  destruct (Backend.Get k (small_db_ (run env ops2 w1))) as [value|];
    [now exists value|discriminate].
Qed.

(** The theorem at "X", promoted by a ghost hit and then followed by
    three [put]s of other keys. *)
Lemma promoted_key_is_always_found_witness :
  fault_free quiet /\
  let ops1 := [op_put "X" "x1"; op_put "Y" "y1"; op_put "X" "x2"; op_get "X"] in
  let ops2 := [op_put "A" "a"; op_put "B" "b"; op_put "C" "c"] in
  in_small "X" (run quiet ops1 (fresh two_values)) = true /\
  exists value,
    fst (get quiet "X" (run quiet ops2 (run quiet ops1 (fresh two_values))))
    = (OK, Some value).
Proof.
  split; [intros n; reflexivity|].
  intros ops1 ops2. split; [reflexivity|].
  exact (promoted_key_is_always_found quiet two_values ops1 ops2 "X"
           (fun n => eq_refl) eq_refl).
Defined.

(** ** Counters and entries *)

Lemma length_Put_contained key value db :
  Backend.contains key db = true ->
  length (Backend.Put key value db) = length db.
Proof.
  unfold Backend.contains, Backend.Get, Backend.Put.
  induction db as [|[k v] rest IH]; [discriminate|].
  destruct (String.eqb k key); simpl; [reflexivity|].
  intros H. now rewrite IH.
Qed.

Lemma step_entries_invariant env op n w :
  fault_free env -> 0 <= n -> n + 1 < 2 ^ 64 ->
  entries_invariant n w -> entries_invariant (n + 1) (step env op w).
Proof.
  intros Hff Hn0 Hn (Htr & HlS & HlM & HlG & Hsum & Hg).
  unfold entries_invariant, Backend.items in *.
  destruct op as [key value|key]; simpl.
  - destruct (put_frame env key value w) as (_ & -> & _ & _ & ->).
    destruct (put_effect env Hff key value w) as (_ & -> & Hrest).
    pose proof (length_Put key value (main_db_ w)) as HlenP.
    rewrite (wrap64_small (main_queue_items_ w + 1)) in Hrest by lia.
    split; [assumption|]. split.
    { unfold in_small. destruct (Backend.contains key (small_db_ w)) eqn:E;
        [rewrite length_Put_contained by assumption|]; lia. }
    destruct (_ <? _) in Hrest.
    + destruct (SeekToFirst_Put key value (main_db_ w))
        as (k_old & v_old & Hfirst).
      rewrite Hfirst in Hrest. destruct Hrest as (-> & -> & -> & ->).
      pose proof (length_Delete_contained k_old _
                    (SeekToFirst_contains _ _ _ Hfirst)) as HlenD.
      pose proof (length_Put k_old "" (ghost_db_ w)) as HlenG.
      rewrite (wrap64_small (main_queue_items_ w + 1 - 1)) by lia.
      destruct (Backend.contains k_old _);
        [|rewrite wrap64_small by lia]; repeat split; lia.
    + destruct Hrest as (-> & -> & -> & ->). repeat split; lia.
  - destruct (get_frame env key w) as (_ & -> & -> & ->).
    split; [assumption|].
    destruct (get_effect env Hff key w)
      as [(-> & -> & -> & ->)
         |[(v & i & _ & Hi & _)|(v & _ & HM & -> & -> & -> & ->)]].
    + repeat split; lia.
    + rewrite Htr in Hi. now rewrite lookup_empty in Hi.
    + pose proof (length_Delete_contained key _ (contains_Get _ _ _ HM))
        as HlenD.
      pose proof (length_Put key v (small_db_ w)) as HlenP.
      rewrite !wrap64_small by lia. repeat split; lia.
Qed.

Lemma run_entries_invariant env ops :
  fault_free env ->
  forall n w,
    0 <= n -> n + Z.of_nat (length ops) < 2 ^ 64 ->
    entries_invariant n w ->
    entries_invariant (n + Z.of_nat (length ops)) (run env ops w).
Proof.
  intros Hff. unfold run.
  induction ops as [|op ops IH]; intros n w Hn0 Hn Hinv.
  - simpl. now rewrite Z.add_0_r.
  - cbn [fold_left length] in *.
    replace (n + Z.of_nat (S (length ops)))
      with ((n + 1) + Z.of_nat (length ops)) in * by lia.
    apply IH; [lia|assumption|].
    apply step_entries_invariant; [assumption|assumption|lia|assumption].
Qed.

(** X11: along every run of fewer than 2^64 operations from a new cache
    with no backend call failing, each of the three item counters that
    [getStats] reports is at least the number of entries of its queue,
    and no counter exceeds the number of operations. *)
Theorem counters_bound_entries env cfg ops live_sst_files_size :
  fault_free env ->
  Z.of_nat (length ops) < 2 ^ 64 ->
  let w := run env ops (fresh cfg) in
  let stats := getStats live_sst_files_size w in
  Backend.items (small_db_ w) <= small_items stats /\
  Backend.items (main_db_ w) <= main_items stats /\
  Backend.items (ghost_db_ w) <= ghost_items stats /\
  small_items stats + main_items stats <= Z.of_nat (length ops) /\
  ghost_items stats <= Z.of_nat (length ops).
Proof.
  intros Hff Hlen w stats.
  destruct (run_entries_invariant env ops Hff 0 (fresh cfg))
    as (_ & H); [lia|lia| |exact H].
  unfold entries_invariant, Backend.items. simpl. repeat split; lia.
Qed.

(** The theorem at a run in which the overwrite of "X" is counted as a
    second item of the main queue. *)
Lemma counters_bound_entries_witness :
  fault_free quiet /\
  let ops := [op_put "X" "x1"; op_put "X" "x2"] in
  let w := run quiet ops (fresh ten_values) in
  Z.of_nat (length ops) < 2 ^ 64 /\
  Backend.items (main_db_ w) = 1 /\ main_queue_items_ w = 2 /\
  Backend.items (main_db_ w) <= main_items (getStats (fun _ => 0) w).
Proof.
  split; [intros n; reflexivity|].
  intros ops w. split; [reflexivity|]. split; [reflexivity|].
  split; [reflexivity|].
  destruct (counters_bound_entries quiet ten_values ops (fun _ => 0)
              (fun n => eq_refl) eq_refl) as (_ & H & _).
  exact H.
Defined.

(** ** The ghost queue holds keys only *)

Lemma step_ghost_values_empty env op w :
  (forall k v, Backend.Get k (ghost_db_ w) = Some v -> v = "") ->
  forall k v, Backend.Get k (ghost_db_ (step env op w)) = Some v -> v = "".
Proof.
  intros Hinv k v. destruct op as [key value|key]; simpl.
  - destruct (put_shapes env key value w) as (_ & [->|(k_old & ->)]);
      [apply Hinv|].
    destruct (String.eqb_spec k_old k) as [->|Hne].
    + rewrite Get_Put_same. now intros [= <-].
    + rewrite Get_Put_other by assumption. apply Hinv.
  - destruct (get_frame env key w) as (_ & _ & -> & _). apply Hinv.
Qed.

Lemma run_ghost_values_empty env cfg ops k v :
  Backend.Get k (ghost_db_ (run env ops (fresh cfg))) = Some v -> v = "".
Proof.
  revert k v.
  apply (run_invariant env
           (fun w => forall k v,
                Backend.Get k (ghost_db_ w) = Some v -> v = "")).
  - intros op w Hinv. now apply step_ghost_values_empty.
  - intros k v. discriminate.
Qed.

(** X21: in every run from a new cache, whether or not backend calls
    fail, every entry of the ghost queue has the empty value: [put] and
    [get] record evicted keys there, never their values. *)
Theorem ghost_queue_holds_no_values env cfg ops k :
  Backend.Get k (ghost_db_ (run env ops (fresh cfg))) = None \/
  Backend.Get k (ghost_db_ (run env ops (fresh cfg))) = Some "".
Proof.
  destruct (Backend.Get k (ghost_db_ (run env ops (fresh cfg))))
    as [v|] eqn:Hk; [right|now left].
  now rewrite (run_ghost_values_empty env cfg ops k v Hk).
Qed.

(** "A" is evicted with the value "a", and remembered without it. *)
Example evicted_value_is_dropped :
  Backend.Get "A" (ghost_db_ (run quiet [op_put "A" "a"; op_put "B" "b"]
                                (fresh two_values))) = Some "".
Proof. reflexivity. Qed.

(** * Properties of the private helpers *)

(** ** [promoteToSmall] *)

(** X12: whichever backend calls fail, [promoteToSmall] never loses a
    key of the main queue: the key is in the small or in the main queue
    afterwards.  It is in the small queue exactly when it was there
    before or the write to the small queue succeeded, and it stays in
    the main queue when that write failed. *)
Theorem promoteToSmall_never_loses_key env key value w :
  in_main key w = true ->
  let w' := snd (promoteToSmall env key value w) in
  resident key w' = true /\
  in_small key w' = in_small key w || negb (io_fault env (backend_calls w)) /\
  (io_fault env (backend_calls w) = true -> in_main key w' = true).
Proof.
  intros HM. unfold resident, in_small, in_main in *.
  exec; rewrite ?contains_Put_same, ?HM, ?orb_true_r, ?orb_false_r;
    repeat split; try reflexivity; try discriminate.
  all: now destruct (Backend.contains key (small_db_ w)).
Qed.

(** The theorem at a promotion whose write to the small queue fails. *)
Lemma promoteToSmall_never_loses_key_witness :
  in_main "K" K_in_main = true /\
  resident "K" (snd (promoteToSmall (failing_at 0) "K" "v" K_in_main)) = true /\
  in_main "K" (snd (promoteToSmall (failing_at 0) "K" "v" K_in_main)) = true.
Proof.
  split; [reflexivity|].
  destruct (promoteToSmall_never_loses_key (failing_at 0) "K" "v" K_in_main
              eq_refl) as (H1 & _ & H2).
  split; [exact H1|exact (H2 eq_refl)].
Defined.

(** ** [handleAccess] *)

Ltac exec_private H := unfold_private; exec_ff H.

(** X13: when no backend call fails, [handleAccess] on a key that is in
    the small or the main queue, and whose access count is below
    [INT_MAX] (so that the [int] increment does not overflow), returns
    OK with the stored value (the small queue's when both hold the
    key), counts exactly one access for that key and none for any
    other. *)
Theorem handleAccess_hit_counts_once env key value value0 w :
  fault_free env ->
  match Backend.Get key (small_db_ w) with
  | Some v => Some v
  | None => Backend.Get key (main_db_ w)
  end = Some value ->
  access_count_of key w < 2147483647 ->
  let w' := snd (handleAccess env key value0 w) in
  fst (handleAccess env key value0 w) = (OK, value) /\
  access_count_of key w' = access_count_of key w + 1 /\
  access_count_of key w' <= 2147483647 /\
  forall k, k <> key -> access_count_of k w' = access_count_of k w.
Proof.
  intros Hff Hst Hmax.
  assert (Hmain : fst (handleAccess env key value0 w) = (OK, value) /\
                  access_count_of key (snd (handleAccess env key value0 w))
                  = access_count_of key w + 1 /\
                  forall k, k <> key ->
                    access_count_of k (snd (handleAccess env key value0 w))
                    = access_count_of k w).
  { clear Hmax. unfold access_count_of.
    exec_private Hff; simplify_eq.
    all: repeat match goal with
         | H : <[_:=_]> _ !! _ = _ |- _ => rewrite lookup_insert_eq in H
         end; simplify_eq.
    all: split; [reflexivity|]; split.
    all: rewrite ?lookup_insert_eq; simpl; try lia.
    all: try (intros k Hne; rewrite !lookup_insert_ne by congruence;
              reflexivity).
    all: try match goal with
         | H : access_counts_ _ !! _ = _ |- _ => rewrite H; reflexivity
         end. }
  destruct Hmain as (H1 & H2 & H3).
  split; [assumption|]. split; [assumption|]. split; [lia|assumption].
Qed.

(** The theorem at a first access to a key of the main queue. *)
Lemma handleAccess_hit_counts_once_witness :
  fault_free quiet /\
  access_count_of "K" K_in_main < 2147483647 /\
  fst (handleAccess quiet "K" "" K_in_main) = (OK, "v") /\
  access_count_of "K" (snd (handleAccess quiet "K" "" K_in_main)) = 1.
Proof.
  split; [intros n; reflexivity|]. split; [reflexivity|].
  destruct (handleAccess_hit_counts_once quiet "K" "v" "" K_in_main
              (fun n => eq_refl) eq_refl eq_refl) as (H1 & H2 & _).
  split; [exact H1|exact H2].
Defined.

(** X14: when no backend call fails, [handleAccess] on a key that is in
    neither queue, while the small queue counts fewer items than its
    budget, returns NotFound and yet admits the key: it writes the key
    to the small queue with the content the caller's buffer had,
    counts one more item there and sets the key's access count to 0;
    the main and the ghost queue stay as they are. *)
Theorem handleAccess_miss_admits_into_small env key value0 w :
  fault_free env ->
  resident key w = false ->
  small_queue_items_ w < small_size_ (config w) ->
  let w' := snd (handleAccess env key value0 w) in
  fst (handleAccess env key value0 w) = (NotFound, value0) /\
  small_db_ w' = Backend.Put key value0 (small_db_ w) /\
  Backend.Get key (small_db_ w') = Some value0 /\
  small_queue_items_ w' = wrap64 (small_queue_items_ w + 1) /\
  access_count_of key w' = 0 /\
  main_db_ w' = main_db_ w /\ ghost_db_ w' = ghost_db_ w.
Proof.
  intros Hff Hres Hroom. apply orb_false_iff in Hres as [HS HM].
  apply contains_false_Get in HS, HM. apply Z.ltb_lt in Hroom.
  unfold access_count_of.
  exec_private Hff; rewrite ?HS, ?HM, ?Hroom in *; simplify_eq.
  rewrite Get_Put_same, lookup_insert_eq. repeat split.
Qed.

(** The theorem at a miss on a new cache. *)
Lemma handleAccess_miss_admits_into_small_witness :
  fault_free quiet /\
  resident "N" (fresh two_values) = false /\
  small_queue_items_ (fresh two_values) < small_size_ (config (fresh two_values)) /\
  fst (handleAccess quiet "N" "buffer" (fresh two_values)) = (NotFound, "buffer") /\
  small_db_ (snd (handleAccess quiet "N" "buffer" (fresh two_values)))
  = [("N", "buffer")].
Proof.
  split; [intros n; reflexivity|]. split; [reflexivity|].
  split; [reflexivity|].
  destruct (handleAccess_miss_admits_into_small quiet "N" "buffer"
              (fresh two_values) (fun n => eq_refl) eq_refl eq_refl)
    as (H1 & H2 & _).
  split; [exact H1|exact H2].
Defined.

(** X15: when no backend call fails, [handleAccess] on a key that is in
    neither queue, while the small queue counts at least its budget,
    does not admit the key.  It takes the oldest entry of the small
    queue out, and moves it to the main queue with its value when an
    access is counted for it, and to the ghost queue with an empty
    value otherwise. *)
Theorem handleAccess_miss_on_full_small_evicts env key value0 e ev rest w :
  fault_free env ->
  resident key w = false ->
  small_size_ (config w) <= small_queue_items_ w ->
  small_db_ w = (e, ev) :: rest ->
  let w' := snd (handleAccess env key value0 w) in
  fst (handleAccess env key value0 w) = (NotFound, value0) /\
  resident key w' = false /\
  small_db_ w' = Backend.Delete e (small_db_ w) /\
  small_queue_items_ w' = wrap64 (small_queue_items_ w - 1) /\
  (if 0 <? access_count_of e w
   then main_db_ w' = Backend.Put e ev (main_db_ w) /\
        ghost_db_ w' = ghost_db_ w
   else main_db_ w' = main_db_ w /\
        ghost_db_ w' = Backend.Put e "" (ghost_db_ w)).
Proof.
  intros Hff Hres Hfull Hfirst. apply orb_false_iff in Hres as [HS HM].
  assert (Hne : e <> key).
  { intros ->. unfold in_small in HS. rewrite Hfirst in HS.
    unfold Backend.contains, Backend.Get in HS.
    now rewrite String.eqb_refl in HS. }
  apply Z.ltb_ge in Hfull. unfold resident, in_small, in_main in *.
  pose proof (contains_false_Get _ _ HS) as HSg.
  pose proof (contains_false_Get _ _ HM) as HMg.
  unfold access_count_of.
  exec_private Hff; rewrite ?HSg, ?HMg, ?Hfull in *; simplify_eq.
  all: repeat match goal with
       | H : Backend.SeekToFirst _ = _ |- _ =>
           rewrite Hfirst in H; unfold Backend.SeekToFirst in H
       end; simplify_eq.
  all: repeat match goal with
       | H : access_counts_ _ !! _ = _ |- _ => rewrite H in *; clear H
       end; simpl in *; try congruence.
  all: try match goal with
           | H : (0 <? 0) = true |- _ => cbv in H; discriminate H
           end.
  all: rewrite ?contains_Delete_other, ?contains_Put_other, ?HS, ?HM
    by assumption; repeat split.
Qed.

(** The theorem at a full small queue whose oldest entry was never
    accessed: "E" goes to the ghost queue, "N" is not admitted. *)
Lemma handleAccess_miss_on_full_small_evicts_witness :
  fault_free quiet /\
  let w' := snd (handleAccess quiet "N" "buffer" (small_full 0)) in
  small_db_ w' = [] /\ main_db_ w' = [] /\ ghost_db_ w' = [("E", "")] /\
  resident "N" w' = false.
Proof.
  split; [intros n; reflexivity|].
  intros w'.
  destruct (handleAccess_miss_on_full_small_evicts quiet "N" "buffer"
              "E" "e" [] (small_full 0) (fun n => eq_refl) eq_refl)
    as (_ & H1 & H2 & _ & H3 & H4).
  - discriminate.
  - reflexivity.
  - split; [exact H2|]. split; [exact H3|]. split; [exact H4|exact H1].
Defined.

(** X16: when no backend call fails and the small queue is empty but
    counts as full (a budget of zero bytes, say), [handleAccess] on a
    key that is in neither queue finds nothing to evict, and still
    files the eviction, under the empty key with an empty value: in the
    ghost queue, counting one more ghost item, when no access is
    counted for the empty key, and in the main queue, counting one more
    main item, when one is.  The small queue and its counter stay as
    they are, and the missed key is not admitted. *)
Theorem handleAccess_miss_on_empty_full_small env key value0 w :
  fault_free env ->
  resident key w = false ->
  small_size_ (config w) <= small_queue_items_ w ->
  small_db_ w = [] ->
  let w' := snd (handleAccess env key value0 w) in
  fst (handleAccess env key value0 w) = (NotFound, value0) /\
  small_db_ w' = [] /\
  small_queue_items_ w' = small_queue_items_ w /\
  (key <> "" -> resident key w' = false) /\
  (if 0 <? access_count_of "" w
   then main_db_ w' = Backend.Put "" "" (main_db_ w) /\
        main_queue_items_ w' = wrap64 (main_queue_items_ w + 1) /\
        ghost_db_ w' = ghost_db_ w /\
        ghost_queue_items_ w' = ghost_queue_items_ w
   else ghost_db_ w' = Backend.Put "" "" (ghost_db_ w) /\
        in_ghost "" w' = true /\
        ghost_queue_items_ w' = wrap64 (ghost_queue_items_ w + 1) /\
        main_db_ w' = main_db_ w /\
        main_queue_items_ w' = main_queue_items_ w).
Proof.
  intros Hff Hres Hfull Hempty. apply orb_false_iff in Hres as [HS HM].
  apply Z.ltb_ge in Hfull. unfold resident, in_small, in_main, in_ghost in *.
  pose proof (contains_false_Get _ _ HS) as HSg.
  pose proof (contains_false_Get _ _ HM) as HMg.
  unfold access_count_of.
  exec_private Hff; rewrite ?HSg, ?HMg, ?Hfull in *; simplify_eq.
  all: repeat match goal with
       | H : Backend.SeekToFirst _ = _ |- _ =>
           rewrite Hempty in H; unfold Backend.SeekToFirst in H
       end; simplify_eq.
  all: repeat match goal with
       | H : access_counts_ _ !! _ = _ |- _ => rewrite H in *; clear H
       end; simpl in *; try congruence.
  all: try match goal with
           | H : (0 <? 0) = true |- _ => cbv in H; discriminate H
           end.
  all: rewrite ?contains_Put_same, ?Hempty; repeat split.
  all: intros Hne; rewrite ?contains_Put_other by congruence;
    rewrite ?HM; reflexivity.
Qed.

(** The theorem at a new cache whose small queue has a budget of zero
    bytes. *)
Lemma handleAccess_miss_on_empty_full_small_witness :
  fault_free quiet /\
  small_size_ (config small_empty_full) <= small_queue_items_ small_empty_full /\
  ghost_db_ (snd (handleAccess quiet "N" "buffer" small_empty_full))
  = [("", "")] /\
  main_db_ (snd (handleAccess quiet "N" "buffer" small_empty_full)) = [].
Proof.
  split; [intros n; reflexivity|]. split; [discriminate|].
  destruct (handleAccess_miss_on_empty_full_small quiet "N" "buffer"
              small_empty_full (fun n => eq_refl) eq_refl)
    as (_ & _ & _ & _ & H & _ & _ & H' & _).
  - discriminate.
  - reflexivity.
  - split; [exact H|exact H'].
Defined.

(** What [handleAccess] can do to the small and the main queue when no
    backend call fails. *)
Lemma handleAccess_shapes env key value0 w :
  fault_free env ->
  let w' := snd (handleAccess env key value0 w) in
  (small_db_ w' = small_db_ w /\ main_db_ w' = main_db_ w)
  \/ (exists value,
        small_db_ w' = Backend.Put key value (small_db_ w) /\
        main_db_ w' = Backend.Delete key (main_db_ w))
  \/ (exists value,
        Backend.contains key (main_db_ w) = false /\
        small_db_ w' = Backend.Put key value (small_db_ w) /\
        main_db_ w' = main_db_ w)
  \/ (exists e,
        small_db_ w' = Backend.Delete e (small_db_ w) /\
        ((exists ev, main_db_ w' = Backend.Put e ev (main_db_ w)) \/
         main_db_ w' = main_db_ w))
  \/ (small_db_ w' = [] /\ small_db_ w = []).
Proof.
  intros Hff. exec_private Hff; simplify_eq.
  all: try (left; split; reflexivity).
  all: try (right; left; eexists; split; reflexivity).
  all: try (right; right; left; eexists; split;
            [unfold Backend.contains;
             match goal with
             | H : Backend.Get _ (main_db_ _) = None |- _ => now rewrite H
             end
            |split; reflexivity]).
  all: try (right; right; right; left; eexists; split;
            [reflexivity|eauto]).
  all: right; right; right; right;
    match goal with
    | H : Backend.SeekToFirst _ = None |- _ =>
        unfold Backend.SeekToFirst in H
    end;
    destruct (small_db_ w); [split; reflexivity|discriminate].
Qed.

(** X17: when no backend call fails, [handleAccess] keeps the small and
    the main queue disjoint: whatever it does (count a hit, promote,
    admit a missed key, evict the oldest small entry), no key is in
    both queues afterwards if none was before. *)
Theorem handleAccess_keeps_queues_disjoint env key value0 w :
  fault_free env ->
  small_main_disjoint w ->
  small_main_disjoint (snd (handleAccess env key value0 w)).
Proof.
  intros Hff Hdis k. specialize (Hdis k). unfold in_small, in_main in *.
  destruct (handleAccess_shapes env key value0 w Hff)
    as [(-> & ->)
       |[(v & -> & ->)
        |[(v & HM & -> & ->)
         |[(e & -> & [(ev & ->)| ->])|(-> & _)]]]].
  - assumption.
  - destruct (String.eqb_spec key k) as [<-|Hne].
    + rewrite contains_Delete_same. apply andb_false_r.
    + now rewrite contains_Delete_other, contains_Put_other.
  - destruct (String.eqb_spec key k) as [<-|Hne].
    + rewrite HM. apply andb_false_r.
    + now rewrite contains_Put_other.
  - destruct (String.eqb_spec e k) as [<-|Hne].
    + now rewrite contains_Delete_same.
    + now rewrite contains_Delete_other, contains_Put_other.
  - destruct (String.eqb_spec e k) as [<-|Hne].
    + now rewrite contains_Delete_same.
    + now rewrite contains_Delete_other.
  - reflexivity.
Qed.

(** The theorem at a miss that evicts "E", an entry with one access
    counted, from a full small queue into the main queue. *)
Lemma handleAccess_keeps_queues_disjoint_witness :
  fault_free quiet /\
  main_db_ (snd (handleAccess quiet "N" "buffer" (small_full 1)))
  = [("E", "e")] /\
  small_main_disjoint (snd (handleAccess quiet "N" "buffer" (small_full 1))).
Proof.
  split; [intros n; reflexivity|]. split; [reflexivity|].
  apply (handleAccess_keeps_queues_disjoint quiet "N" "buffer" (small_full 1)
           (fun n => eq_refl)).
  intros k. unfold in_main. simpl. apply andb_false_r.
Defined.

(** ** [quickDemotion] *)

(** X18: when no backend call fails, a [get] that hits in the small
    queue a key whose tracker entry is at most 10000 ticks old and
    counts at least two accesses (as [uint32_t]) demotes nothing: it
    returns the value, leaves both queues as they are, and advances the
    logical clock by one. *)
Theorem warm_tracked_key_is_not_demoted env key value info_ w :
  fault_free env ->
  Backend.Get key (small_db_ w) = Some value ->
  access_tracker_ w !! key = Some info_ ->
  wrap64 (wrap64 (access_count_ w + 1) - last_access info_) <= 10000 ->
  MIN_ACCESS_COUNT <= to_uint32 (count info_) ->
  let w' := snd (get env key w) in
  fst (get env key w) = (OK, Some value) /\
  small_db_ w' = small_db_ w /\ main_db_ w' = main_db_ w /\
  small_queue_items_ w' = small_queue_items_ w /\
  main_queue_items_ w' = main_queue_items_ w /\
  access_count_ w' = wrap64 (access_count_ w + 1).
Proof.
  intros Hff HS Htr Hage Hcount.
  assert (Hb : (10000 <? wrap64 (wrap64 (access_count_ w + 1)
                                 - last_access info_))
               || (to_uint32 (count info_) <? MIN_ACCESS_COUNT) = false).
  { apply orb_false_iff. split; now apply Z.ltb_ge. }
  exec_ff Hff; rewrite ?HS, ?Htr in *; simplify_eq.
  all: try (rewrite Hb in *; discriminate).
  repeat split.
Qed.

(** The theorem at a key with three accesses tracked, last touched 100
    ticks ago. *)
Lemma warm_tracked_key_is_not_demoted_witness :
  fault_free quiet /\
  let w := tracked_K 200 (mkAccessInfo 3 101) in
  fst (get quiet "K" w) = (OK, Some "v") /\
  small_db_ (snd (get quiet "K" w)) = small_db_ w /\
  access_count_ (snd (get quiet "K" w)) = 201.
Proof.
  split; [intros n; reflexivity|].
  intros w.
  destruct (warm_tracked_key_is_not_demoted quiet "K" "v" (mkAccessInfo 3 101)
              w (fun n => eq_refl) eq_refl eq_refl)
    as (H1 & H2 & _ & _ & _ & H3).
  - discriminate.
  - discriminate.
  - split; [exact H1|]. split; [exact H2|exact H3].
Defined.

(** ** [cleanupAccessTracker] *)

Lemma cleanup_lookup k w :
  access_tracker_ (snd (cleanupAccessTracker w)) !! k =
  match access_tracker_ w !! k with
  | Some i =>
      if decide (last_access i < wrap64 (access_count_ w - 1000000))
      then None else Some i
  | None => None
  end.
Proof.
  unfold cleanupAccessTracker, modify. simpl.
  destruct (access_tracker_ w !! k) as [i|] eqn:Hk.
  - destruct (decide _) as [Hlt|Hge].
    + apply map_lookup_filter_None. right. intros i' Hi'. simpl.
      rewrite Hk in Hi'. injection Hi' as <-. tauto.
    + apply map_lookup_filter_Some. split; [assumption|]. simpl. exact Hge.
  - apply map_lookup_filter_None. now left.
Qed.

(** X19: during the first million ticks of the logical clock the
    threshold of [cleanupAccessTracker], [access_count_ - 1000000],
    wraps around to a value near 2^64, so the clean-up erases every
    entry last touched at or before the current tick: it empties the
    tracker of all entries recorded so far. *)
Theorem early_cleanup_erases_every_entry w k info_ :
  0 <= access_count_ w < 1000000 ->
  access_tracker_ w !! k = Some info_ ->
  last_access info_ <= access_count_ w ->
  access_tracker_ (snd (cleanupAccessTracker w)) !! k = None.
Proof.
  intros Hclock Hk Hlast. rewrite cleanup_lookup, Hk.
  destruct (decide _) as [Hlt|Hge]; [reflexivity|].
  exfalso. apply Hge. unfold wrap64.
  replace (access_count_ w - 1000000)
    with (access_count_ w - 1000000 + 2 ^ 64 + (-1) * 2 ^ 64) by lia.
  rewrite Z_mod_plus_full. rewrite Z.mod_small by lia. lia.
Qed.

(** The theorem at an entry touched at tick 400, cleaned up at tick
    500. *)
Lemma early_cleanup_erases_every_entry_witness :
  0 <= access_count_ (tracker_at 500 400) < 1000000 /\
  access_tracker_ (tracker_at 500 400) !! "K" = Some (mkAccessInfo 3 400) /\
  access_tracker_ (snd (cleanupAccessTracker (tracker_at 500 400))) !! "K"
  = None.
Proof.
  split; [split; [discriminate|reflexivity]|]. split; [reflexivity|].
  apply (early_cleanup_erases_every_entry (tracker_at 500 400) "K"
           (mkAccessInfo 3 400)).
  - split; [discriminate|reflexivity].
  - reflexivity.
  - discriminate.
Defined.

(** X20: once the logical clock has passed one million (and is a
    [uint64_t]), [cleanupAccessTracker] keeps exactly the entries
    touched within the last million ticks: an entry stays, unchanged,
    when [last_access >= access_count_ - 1000000], and is erased
    otherwise; the queues and their counters are not touched. *)
Theorem cleanup_keeps_the_last_million w k info_ :
  1000000 <= access_count_ w < 2 ^ 64 ->
  access_tracker_ w !! k = Some info_ ->
  let w' := snd (cleanupAccessTracker w) in
  (access_count_ w - 1000000 <= last_access info_ ->
   access_tracker_ w' !! k = Some info_) /\
  (last_access info_ < access_count_ w - 1000000 ->
   access_tracker_ w' !! k = None) /\
  small_db_ w' = small_db_ w /\ main_db_ w' = main_db_ w /\
  ghost_db_ w' = ghost_db_ w /\
  small_queue_items_ w' = small_queue_items_ w /\
  main_queue_items_ w' = main_queue_items_ w.
Proof.
  intros Hclock Hk w'. subst w'. rewrite cleanup_lookup, Hk.
  rewrite wrap64_small by lia.
  repeat split; intros H; destruct (decide _); try reflexivity; lia.
Qed.

(** The theorem at tick 2000000: an entry touched at tick 1500000
    stays, one touched at tick 400 goes. *)
Lemma cleanup_keeps_the_last_million_witness :
  access_tracker_ (snd (cleanupAccessTracker (tracker_at 2000000 1500000)))
    !! "K" = Some (mkAccessInfo 3 1500000) /\
  access_tracker_ (snd (cleanupAccessTracker (tracker_at 2000000 400)))
    !! "K" = None.
Proof.
  split.
  - apply (cleanup_keeps_the_last_million (tracker_at 2000000 1500000) "K"
             (mkAccessInfo 3 1500000)).
    + split; [discriminate|reflexivity].
    + reflexivity.
    + discriminate.
  - apply (cleanup_keeps_the_last_million (tracker_at 2000000 400) "K"
             (mkAccessInfo 3 400)).
    + split; [discriminate|reflexivity].
    + reflexivity.
    + reflexivity.
Defined.
